(** * mop: the interaction engine, the markup language and the quote filter

    A shallow embedding of the Go sources of the terminal stock tracker
    (the main loop of cmd/mop, the markup, the filter and the column
    editor of package view, the quotes of package model) together with
    the properties that its specification states about them.

    Conventions.
    - A Go [string] is a [String.string], that is a sequence of bytes;
      offsets into a string are [nat].
    - A [termbox.Attribute] and a Go [int] are [Z]; bit operations are
      [Z.land], [Z.lor] and [Z.lnot], and the wrap-around of the machine
      type is written out.
    - A Go [map] is a stdpp [gmap].
    - A function that can panic returns an [outcome]; a slice expression
      that can fail its bounds check returns an [option].
    - Values of packages that are not part of the sources (the termbox
      constants, the expression engine, the JSON decoder, the line
      editor) are parameters, gathered in type classes. *)

From Stdlib Require Import ZArith String Ascii List Bool Lia.
From stdpp Require Import gmap strings list fin_maps.

Local Open Scope string_scope.
Local Open Scope Z_scope.

(** ** The termbox package (external) *)

Module termbox.

(** The constants of termbox-go that the sources name. Their values
    belong to the library; the sources only rely on the relations
    collected in [wf] below. [bits] is the width of the unsigned type
    [Attribute]. *)
Class Constants := {
  bits : Z;
  ColorDefault : Z;
  ColorBlack : Z;
  ColorRed : Z;
  ColorGreen : Z;
  ColorYellow : Z;
  ColorBlue : Z;
  ColorMagenta : Z;
  ColorCyan : Z;
  ColorWhite : Z;
  ColorDarkGray : Z;
  ColorLightRed : Z;
  ColorLightGreen : Z;
  ColorLightYellow : Z;
  ColorLightBlue : Z;
  ColorLightMagenta : Z;
  ColorLightCyan : Z;
  ColorLightGray : Z;
  AttrBold : Z;
  AttrUnderline : Z;
  AttrReverse : Z;
  KeyEsc : Z;
  KeyEnter : Z;
  KeyArrowLeft : Z;
  KeyArrowRight : Z
}.

(** The seventeen color constants. *)
Definition colors `{Constants} : list Z :=
  [ColorDefault; ColorBlack; ColorRed; ColorGreen; ColorYellow; ColorBlue;
   ColorMagenta; ColorCyan; ColorWhite; ColorDarkGray; ColorLightRed;
   ColorLightGreen; ColorLightYellow; ColorLightBlue; ColorLightMagenta;
   ColorLightCyan; ColorLightGray].

(** An attribute constant is a single bit: [1 << k]. *)
Definition single_bit (a : Z) : Prop := 0 < a ∧ a = 2 ^ Z.log2 a.

(** What termbox-go guarantees about its constants: colors are small
    numbers below the first attribute bit, attributes are distinct
    single bits inside the [Attribute] word. *)
Definition wf `{Constants} : Prop :=
  Forall (λ c, 0 ≤ c < AttrBold) colors ∧
  single_bit AttrBold ∧ single_bit AttrUnderline ∧ single_bit AttrReverse ∧
  AttrBold < AttrUnderline ∧ AttrUnderline < AttrReverse ∧
  AttrReverse < 2 ^ bits.

(** [^a] on the unsigned [Attribute] type. *)
Definition complement `{Constants} (a : Z) : Z := Z.lnot a mod 2 ^ bits.

(** One assignment of the constants, after the declarations of
    termbox-go: colors are [iota] from 0, attributes are
    [1 << (iota + 9)] with blink, hidden, dim and cursive in between. *)
Definition v1 : Constants := {|
  bits := 64;
  ColorDefault := 0; ColorBlack := 1; ColorRed := 2; ColorGreen := 3;
  ColorYellow := 4; ColorBlue := 5; ColorMagenta := 6; ColorCyan := 7;
  ColorWhite := 8; ColorDarkGray := 9; ColorLightRed := 10;
  ColorLightGreen := 11; ColorLightYellow := 12; ColorLightBlue := 13;
  ColorLightMagenta := 14; ColorLightCyan := 15; ColorLightGray := 16;
  AttrBold := 512; AttrUnderline := 8192; AttrReverse := 32768;
  KeyEsc := 27; KeyEnter := 13; KeyArrowLeft := 65515; KeyArrowRight := 65514
|}.

(** The kinds of event that [PollEvent] delivers. *)
Inductive EventType :=
| EventKey | EventResize | EventMouse | EventError | EventInterrupt
| EventRaw | EventNone.

(** The fields of [termbox.Event] that the sources read. *)
Record Event := {
  Type_ : EventType;
  Key : Z;
  Ch : Z
}.

End termbox.

(** ** The Go runtime and standard packages (external) *)

Module golang.

(** An [error] is represented by its message, the text of [err.Error()]. *)
Definition error := string.

(** The value handed to [panic]: the sources panic with an [error] or
    with a string. *)
Inductive panic_value :=
| PanicError (err : error)
| PanicString (msg : string).

(** The result of a call that may panic. *)
Inductive outcome (A : Type) :=
| Returned (a : A)
| Panicked (p : panic_value).
Arguments Returned {A} a.
Arguments Panicked {A} p.

(** Floating point is not interpreted: [float64] is an abstract type
    with the operations the sources apply to it. *)
Class Float64 := {
  float64 : Type;
  float_of_Z : Z → float64;
  float_gt : float64 → float64 → bool;
  float_ge : float64 → float64 → bool;
  float_div : float64 → float64 → float64
}.

(** An [interface{}] value, as the JSON decoder and the expression
    engine produce it. *)
#[warnings="-register-all"]
Inductive any `{Float64} :=
| ANil
| ABool (b : bool)
| AFloat (f : float64)
| AString (s : string)
| ASlice (l : list any)
| AMap (m : list (string * any)).

(** The functions of [strings], [strconv], [fmt] and [encoding/json]
    that the sources call. [ParseFloat] is [None] when the error is
    not nil. [Unmarshal] decodes into a value of the type of [d] in
    [parse2]. *)
Class Library `{Float64} := {
  TrimSpace : string → string;
  ParseFloat : string → option float64;
  Sprintf_0_3f_s : float64 → string → string;
  Sprintf_v : any → string;
  Unmarshal : string → gmap string (gmap string (list (gmap string any))) * option error
}.

(** Go [int] on a 64-bit platform. *)
Definition wrap_int (z : Z) : Z := (z + 2 ^ 63) mod 2 ^ 64 - 2 ^ 63.

(** [append(l, x)]. *)
Definition append {A} (l : list A) (x : A) : list A := (l ++ [x])%list.
Global Arguments append : simpl never.

(** [strings.Join]. *)
Definition Join (elems : list string) (sep : string) : string :=
  String.concat sep elems.
Global Arguments Join : simpl never.

End golang.

(** ** The expression engine (external) *)

Module govaluate.
Import golang.

(** [evaluate(expression, bindings) → (value, error)]. *)
Class Engine `{Float64} := {
  EvaluableExpression : Type;
  Evaluate : EvaluableExpression → gmap string any → any * option error
}.

End govaluate.

(** ** Package config (external): the fields the sources read *)

Module config.
Import golang govaluate.

Record Color := {
  Highlight : string;
  Market : string
}.

Record Profile `{Engine} := {
  Tickers : list string;
  SortColumn : Z;
  SelectedColumn : Z;
  Filter : string;
  FilterExpression : EvaluableExpression;
  Colors : Color
}.

Definition set_SelectedColumn `{Engine} (n : Z) (profile : Profile) : Profile :=
  {| Tickers := Tickers profile;
     SortColumn := SortColumn profile;
     SelectedColumn := n;
     Filter := Filter profile;
     FilterExpression := FilterExpression profile;
     Colors := Colors profile |}.

(** The methods of [Profile] that the sources call; each returns the
    updated profile, and the error where the method has one. *)
Class Methods `{Engine} := {
  SetFilter : Profile → string → Profile;
  Regroup : Profile → Profile * option error;
  Reorder : Profile → Profile * option error
}.

(** The methods of [Profile] that change the list of tickers; each
    returns the updated profile, the number of tickers added or removed
    and the error. *)
Class TickerMethods `{Engine} := {
  AddTickers : Profile → list string → Profile * Z * option error;
  RemoveTickers : Profile → list string → Profile * Z * option error
}.

End config.

(** ** Package regexp (external), restricted to the patterns the markup builds *)

Module regexp.

(** [supportedTags] only ever compiles an alternation
    [</?t1>|</?t2>|...|</?tn>] of tag names without metacharacters, so
    a compiled expression is represented by the list [t1 ... tn]. *)
Record Regexp := { alternatives : list string }.

(** One alternative [</?tag>] tried at the start of [s]: the optional
    slash is greedy, so the form with the slash is tried first. The
    result is the length of the match. *)
Definition match_tag (tag s : string) : option nat :=
  if String.prefix ("</" ++ tag ++ ">") s then Some (String.length tag + 3)%nat
  else if String.prefix ("<" ++ tag ++ ">") s then Some (String.length tag + 2)%nat
  else None.

(** Leftmost-first alternation: the first alternative that matches wins. *)
Fixpoint match_here (alts : list string) (s : string) : option nat :=
  match alts with
  | [] => None
  | tag :: alts' =>
      match match_tag tag s with
      | Some n => Some n
      | None => match_here alts' s
      end
  end.

(** The scan of [FindAllStringIndex]: [pos] is the offset of [s] in the
    whole text and [skip] the number of bytes still covered by the
    previous match. Matches are leftmost and do not overlap. *)
Fixpoint find_from (alts : list string) (s : string) (pos skip : nat)
  : list (nat * nat) :=
  match s with
  | EmptyString => []
  | String _ rest =>
      match skip with
      | S k => find_from alts rest (S pos) k
      | O =>
          match match_here alts s with
          | Some (S l) => (pos, (pos + S l)%nat) :: find_from alts rest (S pos) l
          | _ => find_from alts rest (S pos) 0
          end
      end
  end.

(** The matches [(a, b)] of a list lie between [lo] and [hi], are not
    empty, and follow one another without overlap. *)
Fixpoint ordered (lo hi : nat) (ms : list (nat * nat)) : Prop :=
  match ms with
  | [] => True
  | (a, b) :: ms' => (lo ≤ a ∧ a < b ∧ b ≤ hi)%nat ∧ ordered b hi ms'
  end.

(** [s] has no byte [>]. *)
Fixpoint no_gt (s : string) : bool :=
  match s with
  | EmptyString => true
  | String a s' => negb (Ascii.eqb a ">") && no_gt s'
  end.

(** The number of bytes of [s] before its first [>]. *)
Fixpoint upto_gt (s : string) : nat :=
  match s with
  | EmptyString => 0
  | String a s' => if Ascii.eqb a ">" then 0 else S (upto_gt s')
  end.

(** [re.FindAllStringIndex(str, -1)]. *)
Definition FindAllStringIndex (re : Regexp) (str : string) : list (nat * nat) :=
  find_from (alternatives re) str 0 0.

(** [s] has no byte [<]. *)
Fixpoint no_lt (s : string) : bool :=
  match s with
  | EmptyString => true
  | String a s' => negb (Ascii.eqb a "<") && no_lt s'
  end.

(** [s[n:]], empty when [n] is beyond the end. *)
Fixpoint drop (n : nat) (s : string) : string :=
  match n, s with
  | O, _ => s
  | S n', EmptyString => EmptyString
  | S n', String _ s' => drop n' s'
  end.

End regexp.

(** ** Package model: the quotes *)

Module model.
Import golang govaluate config.

Record Stock := {
  Ticker : string;
  LastTrade : string;
  Change : string;
  ChangePct : string;
  Open : string;
  Low : string;
  High : string;
  Low52 : string;
  High52 : string;
  Volume : string;
  AvgVolume : string;
  PeRatio : string;
  PeRatioX : string;
  Dividend : string;
  Yield : string;
  MarketCap : string;
  MarketCapX : string;
  Currency : string;
  Advancing : bool;
  PreOpen : string;
  AfterHours : string
}.

(** The field of [Market] that the sources read. *)
Record Market := { IsClosed : bool }.

(** [Stocks] is [None] for the nil slice. The pointers [market] and
    [Profile] of the Go struct are passed to the methods that follow
    them. *)
Record Quotes := {
  Stocks : option (list Stock);
  errors : string
}.

Definition NewQuotes : Quotes := {| Stocks := None; errors := "" |}.

Definition set_errors (e : string) (quotes : Quotes) : Quotes :=
  {| Stocks := Stocks quotes; errors := e |}.

Definition set_Stocks (l : option (list Stock)) (quotes : Quotes) : Quotes :=
  {| Stocks := l; errors := errors quotes |}.

Definition quotesURLv7 (symbols : string) : string :=
  "https://query1.finance.yahoo.com/v7/finance/quote?symbols=" ++ symbols.

Definition quotesURLv7QueryParts : string :=
  "&range=1d&interval=5m&indicators=close&includeTimestamps=false&includePrePost=false&corsDomain=finance.yahoo.com&.tsrc=finance".

(** What [http.Get] followed by [ioutil.ReadAll] can yield. *)
Inductive Response :=
| GetFailed (err : error)
| ReadFailed (err : error)
| Body (body : string).

Section Quotes.
Context `{lib : Library} `{eng : !Engine}.

Definition float2Str (v : float64) : string :=
  if float_gt v (float_of_Z (10 ^ 12)) then
    Sprintf_0_3f_s (float_div v (float_of_Z (10 ^ 12))) "T"
  else if float_gt v (float_of_Z (10 ^ 9)) then
    Sprintf_0_3f_s (float_div v (float_of_Z (10 ^ 9))) "B"
  else if float_gt v (float_of_Z (10 ^ 6)) then
    Sprintf_0_3f_s (float_div v (float_of_Z (10 ^ 6))) "M"
  else if float_gt v (float_of_Z (10 ^ 5)) then
    Sprintf_0_3f_s (float_div v (float_of_Z (10 ^ 3))) "K"
  else Sprintf_0_3f_s v "".

Definition isReady (market : Market) (profile : Profile) (quotes : Quotes) : bool :=
  (match Stocks quotes with None => true | Some _ => false end
   || negb (IsClosed market))
  && (0 <? length (Tickers profile))%nat.

(** The type switch of [parse2] on one decoded value. *)
Definition to_text (v : any) : string :=
  match v with
  | AString s => s
  | AFloat f => float2Str f
  | _ => Sprintf_v v
  end.

(** The body of the loop of [parse2] for one element of [results]. *)
Definition parse2_stock (raw : gmap string any) : Stock :=
  let result : gmap string string := to_text <$> raw in
  let at_ (k : string) : string := default "" (result !! k) in
  let change := at_ "regularMarketChange" in
  {| Ticker := at_ "symbol";
     LastTrade := at_ "regularMarketPrice";
     Change := change;
     ChangePct := at_ "regularMarketChangePercent";
     Open := at_ "regularMarketOpen";
     Low := at_ "regularMarketDayLow";
     High := at_ "regularMarketDayHigh";
     Low52 := at_ "fiftyTwoWeekLow";
     High52 := at_ "fiftyTwoWeekHigh";
     Volume := at_ "regularMarketVolume";
     AvgVolume := at_ "averageDailyVolume10Day";
     PeRatio := at_ "trailingPE";
     PeRatioX := at_ "trailingPE";
     Dividend := at_ "trailingAnnualDividendRate";
     Yield := at_ "trailingAnnualDividendYield";
     MarketCap := at_ "marketCap";
     MarketCapX := at_ "marketCap";
     Currency := at_ "currency";
     Advancing :=
       match ParseFloat change with
       | Some adv => float_ge adv (float_of_Z 0)
       | None => false
       end;
     PreOpen := at_ "preMarketChangePercent";
     AfterHours := at_ "postMarketChangePercent" |}.

(** [parse2] returns the quotes after the call and its error result
    ([None] for nil). *)
Definition parse2 (quotes : Quotes) (body : string) : Quotes * option error :=
  let '(d, err) := Unmarshal body in
  match err with
  | Some e => (quotes, Some e)
  | None =>
      let results := default [] (default ∅ (d !! "quoteResponse") !! "result") in
      (set_Stocks (Some (parse2_stock <$> results)) quotes, None)
  end.

(** The body of [Fetch] below its first [defer]: the quotes after it
    and whether it returned or panicked. The results of [parse2] are
    dropped, as in the call [quotes.parse2(body)]. *)
Definition Fetch_body (http_Get : string → Response) (profile : Profile)
  (quotes : Quotes) : Quotes * outcome unit :=
  let url := quotesURLv7 (Join (Tickers profile) ",") in
  match http_Get (url ++ quotesURLv7QueryParts) with
  | GetFailed err => (quotes, Panicked (PanicError err))
  | ReadFailed err => (quotes, Panicked (PanicError err))
  | Body body => ((parse2 quotes body).1, Returned ())
  end.

(** The address that [Fetch_body] passes to [http.Get]. *)
Definition Fetch_url (profile : Profile) : string :=
  quotesURLv7 (Join (Tickers profile) ",") ++ quotesURLv7QueryParts.

(** The text that [%s] prints for a recovered value. *)
Definition panic_text (p : panic_value) : string :=
  match p with
  | PanicError err => err
  | PanicString msg => msg
  end.

Definition newline : string := String (ascii_of_nat 10) "".

(** [Fetch]: the deferred function runs after the body, with
    [recover()] yielding the panic value if there is one. *)
Definition Fetch (http_Get : string → Response) (market : Market)
  (profile : Profile) (quotes : Quotes) : Quotes :=
  if isReady market profile quotes then
    match Fetch_body http_Get profile quotes with
    | (quotes', Panicked p) =>
        set_errors (newline ++ newline ++ newline ++ newline
                    ++ "Error fetching stock quotes..." ++ newline
                    ++ panic_text p) quotes'
    | (quotes', Returned _) => set_errors "" quotes'
    end
  else quotes.

(** [Ok]. *)
Definition Ok (quotes : Quotes) : bool * string :=
  (String.eqb (errors quotes) "", errors quotes).

(** [AddTickers] and [RemoveTickers] of [Quotes]: the profile does the
    work, and the stocks are dropped when it changed the list. The
    results are the profile and the quotes after the call, and the two
    results of the Go method. *)
Definition AddTickers `{tm : !TickerMethods} (profile : Profile) (quotes : Quotes)
  (tickers : list string) : Profile * Quotes * Z * option error :=
  let '(profile', added, err) := config.AddTickers profile tickers in
  match err with
  | None =>
      if 0 <? added
      then (profile', set_Stocks None quotes, added, err)
      else (profile', quotes, added, err)
  | Some _ => (profile', quotes, added, err)
  end.

Definition RemoveTickers `{tm : !TickerMethods} (profile : Profile) (quotes : Quotes)
  (tickers : list string) : Profile * Quotes * Z * option error :=
  let '(profile', removed, err) := config.RemoveTickers profile tickers in
  match err with
  | None =>
      if 0 <? removed
      then (profile', set_Stocks None quotes, removed, err)
      else (profile', quotes, removed, err)
  | Some _ => (profile', quotes, removed, err)
  end.

End Quotes.
End model.

(** ** Package view: the markup *)

Module markup.
Import termbox golang config regexp.

Section Definitions.
Context `{tb : Constants}.

(** [terminalColor]: color names to termbox colors. *)
Definition terminalColor : gmap string Z :=
  list_to_map [
    ("black", ColorBlack);
    ("blue", ColorBlue);
    ("cyan", ColorCyan);
    ("darkgray", ColorDarkGray);
    ("default", ColorDefault);
    ("green", ColorGreen);
    ("lightblue", ColorLightBlue);
    ("lightcyan", ColorLightCyan);
    ("lightgray", ColorLightGray);
    ("lightgreen", ColorLightGreen);
    ("lightmagenta", ColorLightMagenta);
    ("lightred", ColorLightRed);
    ("lightyellow", ColorLightYellow);
    ("magenta", ColorMagenta);
    ("red", ColorRed);
    ("white", ColorWhite);
    ("yellow", ColorYellow)
  ].

(** [terminalColor[name]]: a missing key reads as the zero value. *)
Definition terminalColor_at (name : string) : Z :=
  default 0 (terminalColor !! name).

Record Markup := {
  Foreground : Z;
  Background : Z;
  RightAligned : bool;
  tags : gmap string Z;
  regex : Regexp
}.

(** The patterns are collected by ranging over the map; Go leaves the
    order unspecified, here it is the order of [map_to_list]. *)
Definition supportedTags (tags : gmap string Z) : Regexp :=
  {| alternatives := (map_to_list tags).*1 |}.

(** The table that [NewMarkup] fills, in the order of its assignments. *)
Definition NewMarkup_tags (color : Color) : gmap string Z :=
  <["r" := AttrReverse]>
  (<["u" := AttrUnderline]>
  (<["b" := AttrBold]>
  (<["right" := ColorDefault]>
  (<["market" := terminalColor_at (Market color)]>
  (<["highlight" := terminalColor_at (Highlight color)]>
  (<["base" := ColorWhite]>
  (<["/" := ColorDefault]> ∅))))))).

Definition NewMarkup (color : Color) : Markup :=
  {| Foreground := ColorDefault;
     Background := ColorDefault;
     RightAligned := false;
     tags := NewMarkup_tags color;
     regex := supportedTags (NewMarkup_tags color) |}.

(** [str[lo:hi]]; [None] is the panic of a failed bounds check. *)
Definition slice (str : string) (lo hi : nat) : option string :=
  if (lo <=? hi)%nat && (hi <=? String.length str)%nat
  then Some (substring lo (hi - lo)%nat str)
  else None.

(** The state of the loop of [Tokenize]. *)
Record tokenizer := {
  strings : list string;
  head : nat;
  tail : nat
}.

(** One iteration of [for _, match := range matches]. *)
Definition Tokenize_step (str : string) (st : tokenizer) (m : nat * nat)
  : option tokenizer :=
  let tail := m.1 in
  strings ←
    (if negb (m.2 =? 0)%nat then
       strings ←
         (if negb (head st =? 0)%nat || negb (tail =? 0)%nat then
            text ← slice str (head st) tail;
            Some (append (strings st) text)
          else Some (strings st));
       tag ← slice str m.1 m.2;
       Some (append strings tag)
     else Some (strings st));
  Some {| strings := strings; head := m.2; tail := tail |}.

Fixpoint Tokenize_loop (str : string) (matches : list (nat * nat))
  (st : tokenizer) : option tokenizer :=
  match matches with
  | [] => Some st
  | m :: matches' =>
      st' ← Tokenize_step str st m;
      Tokenize_loop str matches' st'
  end.

Definition Tokenize (markup : Markup) (str : string) : option (list string) :=
  let matches := FindAllStringIndex (regex markup) str in
  st ← Tokenize_loop str matches {| strings := []; head := 0; tail := 0 |};
  if negb (head st =? String.length str)%nat
     && negb (tail st =? String.length str)%nat
  then
    rest ← slice str (head st) (String.length str);
    Some (append (strings st) rest)
  else Some (strings st).

(** The invariant of the loop of [Tokenize]: the tokens collected so
    far spell the text up to [head], and [tail] reaches the end of
    the text only when [head] does. *)
Definition covers (str : string) (st : tokenizer) : Prop :=
  Join (strings st) "" = substring 0 (head st) str ∧
  (head st ≤ String.length str)%nat ∧
  (tail st = String.length str → head st = String.length str).

(** [extractTagName]; it is only called on strings of length above 2,
    where its slice expressions are in range. *)
Definition extractTagName (str : string) : string :=
  if (String.length str <? 3)%nat then ""
  else if negb (String.eqb (substring 1 1 str) "/") then
    substring 1 (String.length str - 1 - 1)%nat str
  else if (3 <? String.length str)%nat then
    substring 2 (String.length str - 1 - 2)%nat str
  else "/".

Definition probeForTag (str : string) : string * bool :=
  if (2 <? String.length str)%nat
     && String.eqb (substring 0 1 str) "<"
     && String.eqb (substring (String.length str - 1)%nat 1 str) ">"
  then (extractTagName str, negb (String.eqb (substring 1 1 str) "/"))
  else ("", false).

Definition set_Foreground (fg : Z) (markup : Markup) : Markup :=
  {| Foreground := fg;
     Background := Background markup;
     RightAligned := RightAligned markup;
     tags := tags markup;
     regex := regex markup |}.

Definition set_RightAligned (b : bool) (markup : Markup) : Markup :=
  {| Foreground := Foreground markup;
     Background := Background markup;
     RightAligned := b;
     tags := tags markup;
     regex := regex markup |}.

(** [process] returns [true] and the updated markup. *)
Definition process (markup : Markup) (tag : string) (open : bool)
  : bool * Markup :=
  match tags markup !! tag with
  | Some attribute =>
      if String.eqb tag "right" then (true, set_RightAligned open markup)
      else if open then
        if (AttrBold <=? attribute)%Z
        then (true, set_Foreground (Z.lor (Foreground markup) attribute) markup)
        else (true, set_Foreground attribute markup)
      else
        if (AttrBold <=? attribute)%Z
        then (true, set_Foreground
                      (Z.land (Foreground markup) (complement attribute)) markup)
        else (true, set_Foreground ColorDefault markup)
  | None => (true, markup)
  end.

Definition IsTag (markup : Markup) (str : string) : bool * Markup :=
  let '(tag, open) := probeForTag str in
  if String.eqb tag "" then (false, markup)
  else process markup tag open.

(** [IsTag] called on each string of a list in turn, on the markup
    that the call before left; the answers are dropped. *)
Definition IsTag_each (markup : Markup) (strs : list string) : Markup :=
  foldl (λ markup str, (IsTag markup str).2) markup strs.

End Definitions.
End markup.

(** ** Package view: the filter *)

Module filter.
Import golang govaluate config model.

(** The helpers [m] and [c] of package view, which turn the text of a
    field into the value bound to its variable. *)
Class Helpers `{Float64} := {
  m : string → any;
  c : string → any
}.

Record Filter `{Engine} := { profile : Profile }.

Section Definitions.
Context `{lib : Library} `{eng : !Engine} `{hlp : !Helpers}.

Definition NewFilter (profile : Profile) : Filter := {| profile := profile |}.

(** The map [values] built for one stock. *)
Definition values (stock : Stock) : gmap string any :=
  list_to_map [
    ("ticker", AString (TrimSpace (Ticker stock)));
    ("last", m (LastTrade stock));
    ("change", c (Change stock));
    ("changePercent", c (ChangePct stock));
    ("open", m (Open stock));
    ("low", m (Low stock));
    ("high", m (High stock));
    ("low52", m (Low52 stock));
    ("high52", m (High52 stock));
    ("volume", m (Volume stock));
    ("avgVolume", m (AvgVolume stock));
    ("pe", m (PeRatio stock));
    ("peX", m (PeRatioX stock));
    ("dividend", m (Dividend stock));
    ("yield", m (Yield stock));
    ("mktCap", m (MarketCap stock));
    ("mktCapX", m (MarketCapX stock));
    ("advancing", ABool (Advancing stock))
  ].

(** What a call of [Apply] does: the bindings it handed to
    [Evaluate], in order, and how it ended. *)
Record Applied := {
  evaluated : list (gmap string any);
  result : outcome (list Stock)
}.

(** The loop of [Apply] over the remaining [stocks]. *)
Fixpoint Apply_loop (filter : Filter) (stocks filteredStocks : list Stock)
  (evaluated : list (gmap string any)) : Applied :=
  match stocks with
  | [] => {| evaluated := evaluated; result := Returned filteredStocks |}
  | stock :: stocks' =>
      let values := values stock in
      let '(result, err) := Evaluate (FilterExpression (profile filter)) values in
      let evaluated := append evaluated values in
      match err with
      | Some err => {| evaluated := evaluated; result := Panicked (PanicError err) |}
      | None =>
          match result with
          | ABool truthy =>
              Apply_loop filter stocks'
                (if truthy then append filteredStocks stock else filteredStocks)
                evaluated
          | _ =>
              {| evaluated := evaluated;
                 result := Panicked (PanicString
                   ("Expression `" ++ config.Filter (profile filter)
                    ++ "` should return a boolean value")) |}
          end
      end
  end.

Definition Apply (filter : Filter) (stocks : list Stock) : Applied :=
  Apply_loop filter stocks [] [].

(** The results of [Evaluate] that [Apply] does not accept: an error,
    or a value that is not a boolean. *)
Definition rejected (r : any * option error) : bool :=
  match r with
  | (_, Some _) => true
  | (ABool _, None) => false
  | (_, None) => true
  end.

(** Whether [Apply] keeps a stock: the expression evaluates to the
    boolean [true] on its bindings, without error. *)
Definition kept (filter : Filter) (stock : Stock) : bool :=
  match Evaluate (FilterExpression (profile filter)) (values stock) with
  | (ABool true, None) => true
  | _ => false
  end.

(** The value with which [Apply] panics on a rejected result. *)
Definition rejection (filter : Filter) (r : any * option error) : panic_value :=
  match r with
  | (_, Some err) => PanicError err
  | (_, None) =>
      PanicString ("Expression `" ++ config.Filter (profile filter)
                   ++ "` should return a boolean value")
  end.

End Definitions.
End filter.

(** ** The screen (external) and the objects the editors share *)

Module session.
Import golang govaluate config model.

(** [TotalColumns] is the value that [layout.TotalColumns()] returns. *)
Record Layout := { TotalColumns : Z }.

(** What [screen.Draw] is asked to draw. *)
Inductive Drawable := TheMarket | TheQuotes | TheTime | TheHelp.

(** The calls made on the screen and on termbox, which is all that is
    known of them. *)
Inductive Call :=
| Draw (objects : list Drawable)
| DrawLine (x y : Z) (str : string)
| Clear
| Resize
| Pause (paused : bool)
| Flush.

Record Screen := {
  layout : Layout;
  calls : list Call
}.

Definition call (c : Call) (screen : Screen) : Screen :=
  {| layout := layout screen; calls := append (calls screen) c |}.

(** The objects behind the pointers that the main loop and the editors
    share: one screen, one profile, one market, one set of quotes. *)
Record World `{Engine} := {
  screen : Screen;
  profile : Profile;
  market : Market;
  quotes : Quotes
}.

Definition set_screen `{Engine} (s : Screen) (w : World) : World :=
  {| screen := s; profile := profile w; market := market w; quotes := quotes w |}.

Definition set_profile `{Engine} (p : Profile) (w : World) : World :=
  {| screen := screen w; profile := p; market := market w; quotes := quotes w |}.

Definition on_screen `{Engine} (c : Call) (w : World) : World :=
  set_screen (call c (screen w)) w.

(** [layout.Header(profile)]. *)
Class Rendering `{Engine} := {
  Header : Layout → Profile → string
}.

End session.

(** ** Package view: the column editor *)

Module column_editor.
Import termbox golang govaluate config model session.

(** The editor keeps pointers only; [layout] is [screen.layout], the
    other three are the shared objects of the [World]. *)
Record ColumnEditor := { layout : Layout }.

Section Definitions.
Context `{tb : Constants} `{eng : Engine} `{met : !Methods} `{ren : !Rendering}.

Definition redrawHeader (editor : ColumnEditor) (w : World) : World :=
  on_screen Flush
    (on_screen (DrawLine 0 4 (Header (layout editor) (profile w))) w).

Definition selectCurrentColumn (editor : ColumnEditor) (w : World) : World :=
  redrawHeader editor
    (set_profile (set_SelectedColumn (SortColumn (profile w)) (profile w)) w).

Definition NewColumnEditor (w : World) : ColumnEditor * World :=
  let editor := {| layout := session.layout (screen w) |} in
  (editor, selectCurrentColumn editor w).

Definition selectLeftColumn (editor : ColumnEditor) (w : World) : World :=
  let p := set_SelectedColumn (wrap_int (SelectedColumn (profile w) - 1)) (profile w) in
  if SelectedColumn p <? 0
  then set_profile (set_SelectedColumn (wrap_int (TotalColumns (layout editor) - 1)) p) w
  else set_profile p w.

Definition selectRightColumn (editor : ColumnEditor) (w : World) : World :=
  let p := set_SelectedColumn (wrap_int (SelectedColumn (profile w) + 1)) (profile w) in
  if wrap_int (TotalColumns (layout editor) - 1) <? SelectedColumn p
  then set_profile (set_SelectedColumn 0 p) w
  else set_profile p w.

Definition execute (editor : ColumnEditor) (w : World) : World :=
  let '(p, err) := Reorder (profile w) in
  let w := set_profile p w in
  match err with
  | None => on_screen (Draw [TheQuotes]) w
  | Some _ => w
  end.

Definition done (editor : ColumnEditor) (w : World) : bool * World :=
  (true, set_profile (set_SelectedColumn (-1) (profile w)) w).

(** [Handle]: the switch, then the deferred [redrawHeader]. *)
Definition Handle (editor : ColumnEditor) (event : Event) (w : World) : bool * World :=
  let '(ret, w) :=
    if Key event =? KeyEsc then done editor w
    else if Key event =? KeyEnter then (false, execute editor w)
    else if Key event =? KeyArrowLeft then (false, selectLeftColumn editor w)
    else if Key event =? KeyArrowRight then (false, selectRightColumn editor w)
    else (false, w) in
  (ret, redrawHeader editor w).

End Definitions.
End column_editor.

(** ** Package view: the line editor (external) *)

Module line_editor.
Import termbox govaluate session.

(** The line editor is known by its interface: it is created from the
    screen and the quotes, prompted with the command character, and
    then handles events until it reports [true]. Each method may change
    the editor and the shared objects. *)
Class Interface `{Engine} := {
  LineEditor : Type;
  NewLineEditor : World → LineEditor;
  Prompt : LineEditor → Z → World → LineEditor * World;
  Handle : LineEditor → Event → World → bool * LineEditor * World
}.

End line_editor.

(** ** Command mop: the main loop *)

Module mop.
Import termbox golang govaluate config model session.
Import column_editor line_editor.

(** The local variables of [mainLoop] that outlive one iteration. *)
Record Loop `{Interface} := {
  lineEditor : option LineEditor;
  columnEditor : option ColumnEditor;
  showingHelp : bool;
  paused : bool
}.

(** What one [select] receives: an event from the keyboard queue or a
    tick of one of the three tickers. *)
Inductive Message :=
| keyboardQueue (event : Event)
| timestampQueue
| quotesQueue
| marketQueue.

(** Whether the iteration ends in [break loop]. *)
Inductive Control := Continue | Break.

(** A character literal as a rune. *)
Definition rune (ch : ascii) : Z := Z.of_N (N_of_ascii ch).

Section Definitions.
Context `{tb : Constants} `{eng : Engine} `{met : !Methods}
        `{ren : !Rendering} `{led : !Interface}.

Definition set_lineEditor (e : option LineEditor) (st : Loop) : Loop :=
  {| lineEditor := e; columnEditor := columnEditor st;
     showingHelp := showingHelp st; paused := paused st |}.

Definition set_columnEditor (e : option ColumnEditor) (st : Loop) : Loop :=
  {| lineEditor := lineEditor st; columnEditor := e;
     showingHelp := showingHelp st; paused := paused st |}.

Definition set_showingHelp (b : bool) (st : Loop) : Loop :=
  {| lineEditor := lineEditor st; columnEditor := columnEditor st;
     showingHelp := b; paused := paused st |}.

Definition set_paused (b : bool) (st : Loop) : Loop :=
  {| lineEditor := lineEditor st; columnEditor := columnEditor st;
     showingHelp := st.(showingHelp); paused := b |}.

(** The first branch of the key handler: no editor, no help. *)
Definition command (st : Loop) (w : World) (event : Event)
  : Control * Loop * World :=
  let ch := Ch event in
  if (Key event =? KeyEsc) || (ch =? rune "q") || (ch =? rune "Q") then
    (Break, st, w)
  else if (ch =? rune "+") || (ch =? rune "-") then
    let '(editor, w) := Prompt (NewLineEditor w) ch w in
    (Continue, set_lineEditor (Some editor) st, w)
  else if ch =? rune "f" then
    let '(editor, w) := Prompt (NewLineEditor w) ch w in
    (Continue, set_lineEditor (Some editor) st, w)
  else if ch =? rune "F" then
    (Continue, st, set_profile (SetFilter (profile w) "") w)
  else if (ch =? rune "o") || (ch =? rune "O") then
    let '(editor, w) := NewColumnEditor w in
    (Continue, set_columnEditor (Some editor) st, w)
  else if (ch =? rune "g") || (ch =? rune "G") then
    let '(p, err) := Regroup (profile w) in
    let w := set_profile p w in
    match err with
    | None => (Continue, st, on_screen (Draw [TheQuotes]) w)
    | Some _ => (Continue, st, w)
    end
  else if (ch =? rune "p") || (ch =? rune "P") then
    let st := set_paused (negb (paused st)) st in
    (Continue, st, on_screen (Draw [TheTime]) (on_screen (Pause (paused st)) w))
  else if (ch =? rune "?") || (ch =? rune "h") || (ch =? rune "H") then
    (Continue, set_showingHelp true st,
     on_screen (Draw [TheHelp]) (on_screen Clear w))
  else (Continue, st, w).

(** [case termbox.EventKey]. *)
Definition key (st : Loop) (w : World) (event : Event)
  : Control * Loop * World :=
  match lineEditor st, columnEditor st, showingHelp st with
  | None, None, false => command st w event
  | Some editor, _, _ =>
      let '(done, editor, w) := line_editor.Handle editor event w in
      (Continue, set_lineEditor (if done then None else Some editor) st, w)
  | None, Some editor, _ =>
      let '(done, w) := column_editor.Handle editor event w in
      (Continue, if done then set_columnEditor None st else st, w)
  | None, None, true =>
      (Continue, set_showingHelp false st,
       on_screen (Draw [TheMarket; TheQuotes]) (on_screen Clear w))
  end.

(** [case termbox.EventResize]. *)
Definition resize (st : Loop) (w : World) : World :=
  let w := on_screen Resize w in
  if negb (showingHelp st)
  then on_screen (Draw [TheMarket; TheQuotes]) w
  else on_screen (Draw [TheHelp]) w.

(** One of the three ticker cases. *)
Definition tick (st : Loop) (w : World) (what : Drawable) : World :=
  if negb (showingHelp st) && negb (paused st)
  then on_screen (Draw [what]) w
  else w.

(** One iteration of the loop: the [select] and the case it runs. *)
Definition step (st : Loop) (w : World) (msg : Message)
  : Control * Loop * World :=
  match msg with
  | keyboardQueue event =>
      match Type_ event with
      | EventKey => key st w event
      | EventResize => (Continue, st, resize st w)
      | _ => (Continue, st, w)
      end
  | timestampQueue => (Continue, st, tick st w TheTime)
  | quotesQueue => (Continue, st, tick st w TheQuotes)
  | marketQueue => (Continue, st, tick st w TheMarket)
  end.

(** The loop over the messages received; it stops at the first
    [Break], and is still running ([Continue]) when the messages
    are used up. *)
Fixpoint run (st : Loop) (w : World) (msgs : list Message)
  : Control * Loop * World :=
  match msgs with
  | [] => (Continue, st, w)
  | msg :: msgs' =>
      match step st w msg with
      | (Break, st', w') => (Break, st', w')
      | (Continue, st', w') => run st' w' msgs'
      end
  end.

(** The line editor on its own: it is handed the key events one by
    one until it reports [true]. The result is the editor if it has
    not finished, the shared objects, and the events left over. *)
Fixpoint line_editing (editor : LineEditor) (w : World) (events : list Event)
  : option LineEditor * World * list Event :=
  match events with
  | [] => (Some editor, w, [])
  | event :: events' =>
      let '(done, editor', w') := line_editor.Handle editor event w in
      if done then (None, w', events') else line_editing editor' w' events'
  end.

(** The same for the column editor; the result says whether the
    editor is still active. *)
Fixpoint column_editing (editor : ColumnEditor) (w : World) (events : list Event)
  : bool * World * list Event :=
  match events with
  | [] => (true, w, [])
  | event :: events' =>
      let '(done, w') := column_editor.Handle editor event w in
      if done then (false, w', events') else column_editing editor w' events'
  end.

(** [mainLoop] on the messages that its queues deliver: the locals
    are initialised, the market and the fresh quotes are drawn, and
    the loop runs. [w] holds the screen and the profile passed in and
    the market that [NewMarket] returns. *)
Definition mainLoop (w : World) (msgs : list Message) : Control * Loop * World :=
  let st := {| lineEditor := None; columnEditor := None;
               showingHelp := false; paused := false |} in
  let w := {| screen := screen w; profile := profile w;
              market := market w; quotes := NewQuotes |} in
  run st (on_screen (Draw [TheMarket; TheQuotes]) w) msgs.

(** The keys that end the loop, and the keys that toggle the pause. *)
Definition quit_key (event : Event) : bool :=
  (Key event =? KeyEsc) || (Ch event =? rune "q") || (Ch event =? rune "Q").

Definition pause_key (event : Event) : bool :=
  (Ch event =? rune "p") || (Ch event =? rune "P").

(** No editor is active and the help is not showing. *)
Definition normal (st : Loop) : bool :=
  match lineEditor st, columnEditor st, showingHelp st with
  | None, None, false => true
  | _, _, _ => false
  end.

(** At most one of the line editor, the column editor and the help is
    active. *)
Definition exclusive (st : Loop) : bool :=
  match lineEditor st, columnEditor st, showingHelp st with
  | Some _, Some _, _ => false
  | Some _, None, true => false
  | None, Some _, true => false
  | _, _, _ => true
  end.

End Definitions.
End mop.

(** ** Sample collaborators

    Small instances of the external interfaces, on which the
    definitions above can be run. *)

Module sample.
Import termbox golang govaluate config model filter session.

(** Integers in the place of floating point numbers. *)
Definition floats : Float64 := {|
  float64 := Z;
  float_of_Z := id;
  float_gt := Z.gtb;
  float_ge := Z.geb;
  float_div := Z.div
|}.

(** A decoder that fails on the empty body and finds no quotes in any
    other; numbers are not parsed or printed. *)
Definition library : @Library floats := {|
  TrimSpace := id;
  ParseFloat := λ _, None;
  Sprintf_0_3f_s := λ _ unit, unit;
  Sprintf_v := λ _, "";
  Unmarshal := λ body,
    if String.eqb body "" then (∅, Some "unexpected end of JSON input")
    else (∅, None)
|}.

(** An engine whose expressions are constants: an expression evaluates
    to itself under all bindings. *)
Definition engine : @Engine floats := {|
  EvaluableExpression := @any floats;
  Evaluate := λ expression _, (expression, None)
|}.

Definition helpers : @Helpers floats := {|
  m := @AString floats;
  c := @AString floats
|}.

Definition methods : @Methods floats engine := {|
  SetFilter := λ p filter,
    @Build_Profile floats engine (Tickers p) (SortColumn p) (SelectedColumn p)
      filter (FilterExpression p) (Colors p);
  Regroup := λ p, (p, None);
  Reorder := λ p, (p, None)
|}.

Definition rendering : @Rendering floats engine := {|
  Header := λ _ _, ""
|}.

(** A line editor that finishes on Enter and on Esc and ignores every
    other key. *)
Definition editor : @line_editor.Interface floats engine := {|
  line_editor.LineEditor := unit;
  line_editor.NewLineEditor := λ _, ();
  line_editor.Prompt := λ e _ w, (e, w);
  line_editor.Handle := λ e event w,
    ((Key event =? @KeyEsc v1) || (Key event =? @KeyEnter v1), e, w)
|}.

Definition colors : Color := {| Highlight := "green"; config.Market := "red" |}.

(** A profile with the given filter text and compiled expression. *)
Definition a_profile (text : string) (expression : @any floats) : @Profile floats engine :=
  @Build_Profile floats engine ["GOOG"; "BA"] 0 (-1) text expression colors.

Definition a_stock (ticker change : string) (advancing : bool) : Stock :=
  {| Ticker := ticker; LastTrade := "331.76"; Change := change;
     ChangePct := "0.5"; Open := "330.00"; Low := "329.10"; High := "333.00";
     Low52 := "300.00"; High52 := "400.00"; Volume := "1.000M";
     AvgVolume := "1.200M"; PeRatio := "20.1"; PeRatioX := "20.1";
     Dividend := "8.22"; Yield := "0.02"; MarketCap := "190.000B";
     MarketCapX := "190.000B"; Currency := "USD"; Advancing := advancing;
     PreOpen := ""; AfterHours := "" |}.

Definition stocks : list Stock :=
  [a_stock "BA" "1.50" true; a_stock "GOOG" "-3.20" false].

(** A world with a layout of [n] columns. *)
Definition a_world (n : Z) (p : @Profile floats engine) : @World floats engine :=
  @Build_World floats engine
    {| layout := {| TotalColumns := n |}; calls := [] |}
    p
    {| IsClosed := false |}
    {| Stocks := Some stocks; errors := "" |}.

(** The keys q and Q. *)
Definition key_q : Event := {| Type_ := EventKey; Key := 0; Ch := mop.rune "q" |}.
Definition key_Q : Event := {| Type_ := EventKey; Key := 0; Ch := mop.rune "Q" |}.

(** The main loop with the line editor active, and with the pause flag
    set or not. *)
Definition editing : @mop.Loop floats engine editor :=
  @mop.Build_Loop floats engine editor (Some ()) None false false.

Definition idle (paused : bool) : @mop.Loop floats engine editor :=
  @mop.Build_Loop floats engine editor None None false paused.

(** A green foreground in reverse video. *)
Definition green_reversed : markup.Markup :=
  markup.set_Foreground (Z.lor 3 32768) (@markup.NewMarkup v1 colors).

(** A profile that appends the new tickers and removes the listed ones. *)
Definition ticker_methods : @TickerMethods floats engine := {|
  config.AddTickers := λ p tickers,
    (@Build_Profile floats engine (Tickers p ++ tickers)%list (SortColumn p)
       (SelectedColumn p) (config.Filter p) (FilterExpression p) (Colors p),
     Z.of_nat (length tickers), None);
  config.RemoveTickers := λ p tickers,
    let rest := List.filter (λ t, negb (bool_decide (t ∈ tickers))) (Tickers p) in
    (@Build_Profile floats engine rest (SortColumn p)
       (SelectedColumn p) (config.Filter p) (FilterExpression p) (Colors p),
     Z.of_nat (length (Tickers p)) - Z.of_nat (length rest), None)
|}.

(** The keys Esc and p, and the right arrow. *)
Definition key_Esc : Event := {| Type_ := EventKey; Key := @KeyEsc v1; Ch := 0 |}.
Definition key_p : Event := {| Type_ := EventKey; Key := 0; Ch := mop.rune "p" |}.
Definition key_right : Event :=
  {| Type_ := EventKey; Key := @KeyArrowRight v1; Ch := 0 |}.

End sample.

(** * Properties *)

Import termbox golang config regexp markup.

(** ** Strings and slices *)

Section Strings.

Lemma append_nil_l (s : string) : "" ++ s = s.
Proof. reflexivity. Qed.

Lemma append_cons (a : ascii) (s t : string) : String a s ++ t = String a (s ++ t).
Proof. reflexivity. Qed.

Lemma append_nil_r (s : string) : s ++ "" = s.
Proof.
  induction s as [|a s IH]; [done|]. by rewrite append_cons, IH.
Qed.

Lemma append_assoc (s1 s2 s3 : string) : (s1 ++ s2) ++ s3 = s1 ++ s2 ++ s3.
Proof.
  induction s1 as [|a s1 IH]; [done|]. by rewrite !append_cons, IH.
Qed.

Lemma length_append (s1 s2 : string) :
  String.length (s1 ++ s2) = (String.length s1 + String.length s2)%nat.
Proof.
  induction s1 as [|a s1 IH]; [done|]. rewrite append_cons. cbn. by rewrite IH.
Qed.

Lemma substring_zero (n : nat) (s : string) : substring n 0 s = "".
Proof.
  revert n; induction s as [|a s IH]; intros [|n]; cbn; auto.
Qed.

Lemma substring_all (s : string) : substring 0 (String.length s) s = s.
Proof. induction s as [|a s IH]; cbn; [done | by rewrite IH]. Qed.

(** Two adjacent slices make one: [s[lo:mid] + s[mid:hi] = s[lo:hi]]. *)
Lemma substring_split (s : string) (lo n1 n2 : nat) :
  (lo + n1 + n2 ≤ String.length s)%nat →
  substring lo n1 s ++ substring (lo + n1) n2 s = substring lo (n1 + n2) s.
Proof.
  revert lo n1; induction s as [|a s IH]; intros lo n1 Hlen; cbn in Hlen.
  - assert (lo = 0 ∧ n1 = 0 ∧ n2 = 0)%nat as (-> & -> & ->) by lia. done.
  - destruct lo as [|lo]; cbn.
    + destruct n1 as [|n1]; cbn.
      * done.
      * rewrite append_cons. f_equal. apply (IH 0%nat n1). lia.
    + apply IH. lia.
Qed.

Lemma substring_join (s : string) (lo mid hi : nat) :
  (lo ≤ mid ≤ hi)%nat → (hi ≤ String.length s)%nat →
  substring lo (mid - lo) s ++ substring mid (hi - mid) s
  = substring lo (hi - lo) s.
Proof.
  intros Hmid Hhi.
  replace (hi - lo)%nat with ((mid - lo) + (hi - mid))%nat by lia.
  rewrite <- substring_split by lia.
  do 2 f_equal. lia.
Qed.

Lemma prefix_cons (a b : ascii) (p s : string) :
  String.prefix (String a p) (String b s)
  = if ascii_dec a b then String.prefix p s else false.
Proof. reflexivity. Qed.

Lemma prefix_length (p s : string) :
  String.prefix p s = true → (String.length p ≤ String.length s)%nat.
Proof.
  revert s; induction p as [|a p IH]; intros [|b s] Hp; cbn in *; try lia; try done.
  destruct (ascii_dec a b); [|done]. apply IH in Hp. lia.
Qed.

End Strings.

(** ** The matches of the tag pattern *)

Section Matches.
Import regexp.

Lemma ordered_weaken (lo lo' hi : nat) ms :
  (lo' ≤ lo)%nat → ordered lo hi ms → ordered lo' hi ms.
Proof. destruct ms as [|[a b] ms]; cbn; [done|]. intros ? [? ?]. split; [lia | done]. Qed.

Lemma match_tag_length (tag s : string) (n : nat) :
  match_tag tag s = Some n → (0 < n ≤ String.length s)%nat.
Proof.
  unfold match_tag. intros H.
  destruct (String.prefix ("</" ++ tag ++ ">") s) eqn:H1.
  - apply prefix_length in H1. rewrite !append_cons, append_nil_l in H1.
    cbn in H1. rewrite length_append in H1. cbn in H1. simplify_eq. lia.
  - destruct (String.prefix ("<" ++ tag ++ ">") s) eqn:H2; [|done].
    apply prefix_length in H2. rewrite !append_cons, append_nil_l in H2.
    cbn in H2. rewrite length_append in H2. cbn in H2. simplify_eq. lia.
Qed.

Lemma match_here_length (alts : list string) (s : string) (n : nat) :
  match_here alts s = Some n → (0 < n ≤ String.length s)%nat.
Proof.
  induction alts as [|tag alts IH]; cbn; [done|].
  destruct (match_tag tag s) eqn:Ht; [|done].
  intros [= <-]. by eapply match_tag_length.
Qed.

Lemma find_from_ordered (alts : list string) (s : string) (pos skip : nat) :
  (skip ≤ String.length s)%nat →
  ordered (pos + skip) (pos + String.length s) (find_from alts s pos skip).
Proof.
  revert pos skip; induction s as [|a s IH]; intros pos skip Hskip; cbn; [done|].
  cbn in Hskip. destruct skip as [|k].
  - destruct (match_here alts (String a s)) as [[|l]|] eqn:Hm.
    + eapply (ordered_weaken (S pos + 0)); [lia|].
      replace (pos + S (String.length s))%nat with (S pos + String.length s)%nat by lia.
      apply IH. lia.
    + apply match_here_length in Hm. cbn in Hm. cbn. split; [lia|].
      replace (pos + S l)%nat with (S pos + l)%nat by lia.
      replace (pos + S (String.length s))%nat with (S pos + String.length s)%nat by lia.
      apply IH. lia.
    + eapply (ordered_weaken (S pos + 0)); [lia|].
      replace (pos + S (String.length s))%nat with (S pos + String.length s)%nat by lia.
      apply IH. lia.
  - replace (pos + S k)%nat with (S pos + k)%nat by lia.
    replace (pos + S (String.length s))%nat with (S pos + String.length s)%nat by lia.
    apply IH. lia.
Qed.

Lemma FindAllStringIndex_ordered (re : Regexp) (str : string) :
  ordered 0 (String.length str) (FindAllStringIndex re str).
Proof. apply (find_from_ordered (alternatives re) str 0 0). lia. Qed.

End Matches.

(** ** Tokenize *)

Section Tokenize.
Import golang regexp markup.

Lemma Join_nil : Join [] "" = "".
Proof. reflexivity. Qed.

Lemma Join_cons (x : string) (l : list string) : Join (x :: l) "" = x ++ Join l "".
Proof.
  unfold Join. destruct l as [|y l]; cbn.
  - by rewrite append_nil_r.
  - reflexivity.
Qed.

Lemma Join_append (l : list string) (x : string) :
  Join (append l x) "" = Join l "" ++ x.
Proof.
  unfold append. induction l as [|y l IH].
  - cbn. done.
  - change ((y :: l) ++ [x])%list with (y :: (l ++ [x]))%list.
    by rewrite !Join_cons, IH, append_assoc.
Qed.

Lemma slice_Some (str : string) (lo hi : nat) :
  (lo ≤ hi ≤ String.length str)%nat →
  slice str lo hi = Some (substring lo (hi - lo) str).
Proof.
  intros [H1 H2]. unfold slice.
  apply Nat.leb_le in H1, H2. by rewrite H1, H2.
Qed.

Lemma Tokenize_step_covers (str : string) (st : tokenizer) (a b : nat) :
  covers str st →
  (head st ≤ a ∧ a < b ∧ b ≤ String.length str)%nat →
  ∃ st', Tokenize_step str st (a, b) = Some st' ∧ covers str st' ∧ head st' = b.
Proof.
  intros (Hjoin & Hhead & _) (Ha & Hab & Hb).
  unfold Tokenize_step; cbn [fst snd].
  assert ((b =? 0)%nat = false) as -> by (apply Nat.eqb_neq; lia).
  rewrite (slice_Some str a b) by lia.
  assert (substring 0 (head st) str ++ substring (head st) (a - head st) str
          = substring 0 a str) as Htext.
  { rewrite <- (Nat.sub_0_r (head st)) at 1. rewrite <- (Nat.sub_0_r a) at 2.
    apply substring_join; lia. }
  assert (substring 0 a str ++ substring a (b - a) str = substring 0 b str) as Htag.
  { rewrite <- (Nat.sub_0_r a) at 1. rewrite <- (Nat.sub_0_r b) at 2.
    apply substring_join; lia. }
  destruct (negb (head st =? 0)%nat || negb (a =? 0)%nat) eqn:Hcond; cbn.
  - rewrite (slice_Some str (head st) a) by lia. cbn.
    eexists; split; [reflexivity|]. split; [|done].
    split; cbn; [|lia].
    by rewrite !Join_append, Hjoin, Htext, Htag.
  - apply orb_false_elim in Hcond as [H1 H2].
    apply negb_false_iff, Nat.eqb_eq in H1, H2. subst a.
    eexists; split; [reflexivity|]. split; [|done].
    split; cbn; [|lia].
    rewrite Join_append, Hjoin, H1. rewrite <- Htag.
    by rewrite substring_zero.
Qed.

Lemma Tokenize_loop_covers (str : string) (ms : list (nat * nat)) (st : tokenizer) :
  covers str st →
  ordered (head st) (String.length str) ms →
  ∃ st', Tokenize_loop str ms st = Some st' ∧ covers str st'.
Proof.
  revert st; induction ms as [|[a b] ms IH]; intros st Hst Hms; cbn.
  - eauto.
  - destruct Hms as [Hab Hms].
    destruct (Tokenize_step_covers str st a b Hst Hab) as (st1 & -> & Hst1 & Hhead).
    cbn. apply IH; [done|]. by rewrite Hhead.
Qed.

(** C1. For every markup and every input string, [Tokenize] returns
    (no slice expression fails), and joining the tokens it returns, in
    order and with nothing in between, gives back the input string. *)
Theorem Tokenize_concatenation (markup : Markup) (str : string) :
  ∃ tokens, Tokenize markup str = Some tokens ∧ Join tokens "" = str.
Proof.
  unfold Tokenize.
  destruct (Tokenize_loop_covers str (FindAllStringIndex (regex markup) str)
              {| strings := []; head := 0; tail := 0 |})
    as (st & -> & Hjoin & Hhead & Htail).
  { repeat split; cbn; [by rewrite substring_zero | lia | done]. }
  { apply FindAllStringIndex_ordered. }
  cbn.
  destruct (negb (head st =? String.length str)%nat
            && negb (tail st =? String.length str)%nat) eqn:Hcond.
  - apply andb_true_iff in Hcond as [H1 _].
    apply negb_true_iff, Nat.eqb_neq in H1.
    rewrite slice_Some by lia. cbn.
    eexists; split; [reflexivity|].
    rewrite Join_append, Hjoin.
    rewrite <- (Nat.sub_0_r (head st)) at 1.
    rewrite substring_join by lia.
    rewrite Nat.sub_0_r. apply substring_all.
  - eexists; split; [reflexivity|].
    assert (head st = String.length str) as Heq.
    { apply andb_false_iff in Hcond as [H|H];
        apply negb_false_iff, Nat.eqb_eq in H; auto. }
    rewrite Hjoin, Heq. apply substring_all.
Qed.

End Tokenize.

(** ** The order of the alternatives does not matter

    [supportedTags] ranges over a map, so the order of the alternatives
    of the pattern changes from run to run. No tag name contains [>], so
    a match at a given place always ends at the first [>] after it,
    whichever alternative finds it. *)

Section Order.
Import regexp markup.

Lemma prefix_upto_gt (p s : string) :
  no_gt p = true → String.prefix (p ++ ">") s = true →
  upto_gt s = String.length p.
Proof.
  revert s; induction p as [|a p IH]; intros [|b s] Hp Hpre.
  - done.
  - rewrite append_nil_l, prefix_cons in Hpre.
    destruct (ascii_dec ">" b) as [<-|]; [|done]. reflexivity.
  - done.
  - rewrite append_cons, prefix_cons in Hpre.
    destruct (ascii_dec a b) as [<-|]; [|done].
    cbn in Hp. apply andb_true_iff in Hp as [Ha Hp].
    apply negb_true_iff in Ha. cbn [upto_gt String.length]. rewrite Ha.
    f_equal. by apply IH.
Qed.

Lemma match_tag_upto_gt (tag s : string) (n : nat) :
  no_gt tag = true → match_tag tag s = Some n → n = S (upto_gt s).
Proof.
  intros Htag. unfold match_tag.
  destruct (String.prefix ("</" ++ tag ++ ">") s) eqn:H1.
  - intros [= <-].
    rewrite <- (append_assoc "</" tag ">") in H1.
    apply prefix_upto_gt in H1 as ->.
    + rewrite length_append. cbn. lia.
    + rewrite !append_cons, append_nil_l. cbn. done.
  - destruct (String.prefix ("<" ++ tag ++ ">") s) eqn:H2; [|done].
    intros [= <-].
    rewrite <- (append_assoc "<" tag ">") in H2.
    apply prefix_upto_gt in H2 as ->.
    + rewrite length_append. cbn. lia.
    + rewrite !append_cons, append_nil_l. cbn. done.
Qed.

Lemma match_here_Permutation (alts alts' : list string) (s : string) :
  Forall (λ tag, no_gt tag = true) alts →
  alts ≡ₚ alts' →
  match_here alts s = match_here alts' s.
Proof.
  intros Hgt Hperm. induction Hperm as [|x l l' Hperm IH|x y l|l l' l'' H1 IH1 H2 IH2].
  - done.
  - cbn. apply Forall_cons in Hgt as [_ Hgt]. by rewrite IH.
  - cbn. apply Forall_cons in Hgt as [Hy Hgt]. apply Forall_cons in Hgt as [Hx _].
    destruct (match_tag y s) eqn:Ey, (match_tag x s) eqn:Ex; try done.
    apply match_tag_upto_gt in Ey, Ex; [|done..]. by subst.
  - rewrite IH1 by done. apply IH2. by rewrite <- H1.
Qed.

Lemma find_from_Permutation (alts alts' : list string) (s : string) (pos skip : nat) :
  Forall (λ tag, no_gt tag = true) alts →
  alts ≡ₚ alts' →
  find_from alts s pos skip = find_from alts' s pos skip.
Proof.
  intros Hgt Hperm. revert pos skip.
  induction s as [|a s IH]; intros pos skip; cbn; [done|].
  destruct skip as [|k]; [|apply IH].
  rewrite (match_here_Permutation alts alts' _ Hgt Hperm).
  destruct (match_here alts' (String a s)) as [[|l]|]; by rewrite ?IH.
Qed.

(** Two markups whose patterns list the same tag names, in any order,
    tokenize alike. *)
Lemma Tokenize_Permutation (markup markup' : Markup) (str : string) :
  Forall (λ tag, no_gt tag = true) (alternatives (regex markup)) →
  alternatives (regex markup) ≡ₚ alternatives (regex markup') →
  Tokenize markup str = Tokenize markup' str.
Proof.
  intros Hgt Hperm. unfold Tokenize, FindAllStringIndex.
  by rewrite (find_from_Permutation _ _ _ _ _ Hgt Hperm).
Qed.

Lemma NewMarkup_no_gt `{tb : termbox.Constants} (color : config.Color) :
  Forall (λ tag, no_gt tag = true) (alternatives (regex (NewMarkup color))).
Proof. vm_compute. repeat constructor. Qed.

End Order.

(** ** The example of the specification *)

Section Example.
Import termbox config regexp markup.
Context `{tb : Constants}.

(** C2. On ["<green>OK</>"] the code does not do what the example
    says. The table of [NewMarkup] has no tag [green], so the pattern
    does not match [<green>]: whatever the order of the alternatives,
    [Tokenize] returns the two tokens ["<green>OK"] and ["</>"]; and
    [IsTag] on ["<green>"] answers [true] and leaves the markup, its
    foreground included, as it was. *)
Theorem Tokenize_green_OK (color : Color) (markup : Markup) :
  alternatives (regex (NewMarkup color)) ≡ₚ alternatives (regex markup) →
  Tokenize markup "<green>OK</>" = Some ["<green>OK"; "</>"] ∧
  IsTag (NewMarkup color) "<green>" = (true, NewMarkup color) ∧
  Foreground (NewMarkup color) = ColorDefault.
Proof.
  intros Hperm. split; [|split].
  - rewrite <- (Tokenize_Permutation (NewMarkup color) markup);
      [| apply NewMarkup_no_gt | done].
    vm_compute. reflexivity.
  - vm_compute. reflexivity.
  - reflexivity.
Qed.

(** With a tag of the table in the place of [green] the example holds:
    three tokens, and the first sets the foreground to the color
    configured for [highlight]. *)
Lemma Tokenize_highlight_OK (color : Color) :
  Tokenize (NewMarkup color) "<highlight>OK</>" = Some ["<highlight>"; "OK"; "</>"].
Proof. vm_compute. reflexivity. Qed.

Lemma IsTag_highlight (color : Color) :
  terminalColor_at (Highlight color) < AttrBold →
  IsTag (NewMarkup color) "<highlight>"
  = (true, set_Foreground (terminalColor_at (Highlight color)) (NewMarkup color)).
Proof.
  intros Hcolor.
  change (IsTag (NewMarkup color) "<highlight>")
    with (process (NewMarkup color) "highlight" true).
  unfold process.
  assert (tags (NewMarkup color) !! "highlight"
          = Some (terminalColor_at (Highlight color))) as -> by reflexivity.
  apply Z.leb_gt in Hcolor. cbn [String.eqb Ascii.eqb Bool.eqb]. by rewrite Hcolor.
Qed.

End Example.

Lemma Tokenize_green_OK_witness :
  Tokenize (@NewMarkup v1 sample.colors) "<green>OK</>"
    = Some ["<green>OK"; "</>"] ∧
  @IsTag v1 (@NewMarkup v1 sample.colors) "<green>"
    = (true, @NewMarkup v1 sample.colors) ∧
  Foreground (@NewMarkup v1 sample.colors) = 0.
Proof.
  apply (@Tokenize_green_OK v1 sample.colors).
  reflexivity.
Defined.

(** ** The render state *)

Section RenderState.
Context `{tb : Constants}.

Lemma single_bit_testbit (a i : Z) :
  single_bit a → Z.testbit a i = (Z.log2 a =? i).
Proof.
  intros [Hpos Hpow]. rewrite Hpow at 1.
  apply Z.pow2_bits_eqb, Z.log2_nonneg.
Qed.

Lemma single_bit_lt (a b : Z) :
  single_bit a → single_bit b → a < b → Z.log2 a < Z.log2 b.
Proof.
  intros [Ha Ea] [Hb Eb] Hlt. rewrite Ea, Eb in Hlt.
  apply Z.pow_lt_mono_r_iff in Hlt; [done | lia | apply Z.log2_nonneg].
Qed.

Lemma wf_bits : wf →
  0 ≤ Z.log2 AttrBold ∧ Z.log2 AttrBold < Z.log2 AttrUnderline ∧
  Z.log2 AttrUnderline < Z.log2 AttrReverse ∧ Z.log2 AttrReverse < bits.
Proof.
  intros (_ & Hb & Hu & Hr & Hbu & Hur & Hrw).
  repeat split.
  - apply Z.log2_nonneg.
  - by apply single_bit_lt.
  - by apply single_bit_lt.
  - destruct Hr as [Hr _]. by apply Z.log2_lt_pow2.
Qed.

(** A color number has no attribute bit. *)
Lemma color_testbit (c i : Z) :
  wf → 0 ≤ c < AttrBold → Z.log2 AttrBold ≤ i → Z.testbit c i = false.
Proof.
  intros Hwf [H0 Hc] Hi.
  destruct (decide (c = 0)) as [->|]; [apply Z.bits_0|].
  apply Z.bits_above_log2; [done|].
  assert (Z.log2 c < Z.log2 AttrBold); [|lia].
  destruct Hwf as (_ & [Hb Eb] & _).
  apply Z.log2_lt_pow2; [lia|]. by rewrite <- Eb.
Qed.

(** The bits of [fg &^ a] inside the word. *)
Lemma complement_testbit (fg a i : Z) :
  0 ≤ fg < 2 ^ bits → 0 ≤ bits →
  Z.testbit (Z.land fg (complement a)) i = Z.testbit fg i && negb (Z.testbit a i).
Proof.
  intros [H0 Hfg] Hbits. unfold complement. rewrite Z.land_spec.
  destruct (Z.testbit fg i) eqn:Hi; [|done]. cbn.
  destruct (decide (i < 0)) as [Hneg|Hnn].
  { by rewrite Z.testbit_neg_r in Hi. }
  destruct (decide (i < bits)) as [Hlow|Hhigh].
  - rewrite Z.mod_pow2_bits_low by lia. apply Z.lnot_spec. lia.
  - exfalso.
    destruct (decide (fg = 0)) as [->|]; [by rewrite Z.bits_0 in Hi|].
    rewrite Z.bits_above_log2 in Hi; [done | lia |].
    assert (Z.log2 fg < bits); [|lia].
    apply Z.log2_lt_pow2; lia.
Qed.

Lemma terminalColor_at_color (name : string) :
  wf → 0 ≤ terminalColor_at name < AttrBold.
Proof.
  intros Hwf. unfold terminalColor_at.
  destruct (terminalColor !! name) as [v|] eqn:Hv; cbn.
  - apply elem_of_list_to_map_2 in Hv.
    destruct Hwf as (Hcolors & _). unfold colors in Hcolors.
    repeat (apply Forall_cons in Hcolors as [? Hcolors]).
    repeat (apply elem_of_cons in Hv as [[= _ ->]|Hv]; [assumption|]).
    by apply elem_of_nil in Hv.
  - destruct Hwf as (_ & [Hb _] & _). lia.
Qed.

(** The four ways in which [process] changes the foreground. *)
Lemma process_open_attribute (markup : Markup) (tag : string) (a : Z) :
  tags markup !! tag = Some a → tag ≠ "right" → AttrBold ≤ a →
  process markup tag true
  = (true, set_Foreground (Z.lor (Foreground markup) a) markup).
Proof.
  intros Htag Hright Ha. unfold process. rewrite Htag.
  apply String.eqb_neq in Hright. rewrite Hright.
  apply Z.leb_le in Ha. by rewrite Ha.
Qed.

Lemma process_close_attribute (markup : Markup) (tag : string) (a : Z) :
  tags markup !! tag = Some a → tag ≠ "right" → AttrBold ≤ a →
  process markup tag false
  = (true, set_Foreground (Z.land (Foreground markup) (complement a)) markup).
Proof.
  intros Htag Hright Ha. unfold process. rewrite Htag.
  apply String.eqb_neq in Hright. rewrite Hright.
  apply Z.leb_le in Ha. by rewrite Ha.
Qed.

Lemma process_open_color (markup : Markup) (tag : string) (a : Z) :
  tags markup !! tag = Some a → tag ≠ "right" → a < AttrBold →
  process markup tag true = (true, set_Foreground a markup).
Proof.
  intros Htag Hright Ha. unfold process. rewrite Htag.
  apply String.eqb_neq in Hright. rewrite Hright.
  apply Z.leb_gt in Ha. by rewrite Ha.
Qed.

Lemma process_close_color (markup : Markup) (tag : string) (a : Z) :
  tags markup !! tag = Some a → tag ≠ "right" → a < AttrBold →
  process markup tag false = (true, set_Foreground ColorDefault markup).
Proof.
  intros Htag Hright Ha. unfold process. rewrite Htag.
  apply String.eqb_neq in Hright. rewrite Hright.
  apply Z.leb_gt in Ha. by rewrite Ha.
Qed.

(** C8. In a markup with the table of [NewMarkup] and any foreground
    word, after the tags [<b>], [<u>] and [</b>] the underline bit of
    the foreground is set, the bold bit is clear, and every other bit
    (the color and the reverse attribute) is as before. The three tags
    are recognised as tags. *)
Theorem bold_underline_unbold (color : Color) (markup : Markup) :
  wf →
  tags markup = NewMarkup_tags color →
  0 ≤ Foreground markup < 2 ^ bits →
  let r1 := IsTag markup "<b>" in
  let r2 := IsTag r1.2 "<u>" in
  let r3 := IsTag r2.2 "</b>" in
  (r1.1 = true ∧ r2.1 = true ∧ r3.1 = true) ∧
  Z.testbit (Foreground r3.2) (Z.log2 AttrUnderline) = true ∧
  Z.testbit (Foreground r3.2) (Z.log2 AttrBold) = false ∧
  ∀ i, i ≠ Z.log2 AttrBold → i ≠ Z.log2 AttrUnderline →
       Z.testbit (Foreground r3.2) i = Z.testbit (Foreground markup) i.
Proof.
  intros Hwf Htags Hfg.
  pose proof (wf_bits Hwf) as (Hb0 & Hbu & Hur & Hrw).
  destruct Hwf as (_ & Hb & Hu & Hr & Hltbu & _).
  assert (tags markup !! "b" = Some AttrBold) as Tb by (by rewrite Htags).
  assert (tags markup !! "u" = Some AttrUnderline) as Tu by (by rewrite Htags).
  change (IsTag markup "<b>") with (process markup "b" true).
  rewrite (process_open_attribute markup "b" AttrBold) by (done || lia).
  cbn [fst snd].
  change (IsTag ?m "<u>") with (process m "u" true).
  rewrite (process_open_attribute _ "u" AttrUnderline) by (done || lia).
  cbn [fst snd].
  change (IsTag ?m "</b>") with (process m "b" false).
  rewrite (process_close_attribute _ "b" AttrBold) by (done || lia).
  cbn [fst snd Foreground set_Foreground].
  assert (0 ≤ Z.lor (Z.lor (Foreground markup) AttrBold) AttrUnderline < 2 ^ bits)
    as Hrange.
  { split.
    - apply Z.lor_nonneg. split; [apply Z.lor_nonneg|]; destruct Hb, Hu; lia.
    - destruct (decide (Z.lor (Z.lor (Foreground markup) AttrBold) AttrUnderline = 0))
        as [->|Hne]; [apply Z.pow_pos_nonneg; lia|].
      apply Z.log2_lt_pow2.
      + assert (0 ≤ Z.lor (Z.lor (Foreground markup) AttrBold) AttrUnderline); [|lia].
        apply Z.lor_nonneg. split; [apply Z.lor_nonneg|]; destruct Hb, Hu; lia.
      + rewrite !Z.log2_lor by (try apply Z.lor_nonneg; destruct Hb, Hu; lia).
        assert (Z.log2 (Foreground markup) < bits).
        { destruct (decide (Foreground markup = 0)) as [->|]; [cbn; lia|].
          apply Z.log2_lt_pow2; lia. }
        lia. }
  split; [done|].
  split; [|split].
  - rewrite complement_testbit by (done || lia).
    rewrite !Z.lor_spec, !(single_bit_testbit AttrBold),
      !(single_bit_testbit AttrUnderline) by done.
    rewrite Z.eqb_refl, orb_true_r.
    assert ((Z.log2 AttrBold =? Z.log2 AttrUnderline) = false) as ->; [|done].
    apply Z.eqb_neq. lia.
  - rewrite complement_testbit by (done || lia).
    rewrite (single_bit_testbit AttrBold) by done.
    by rewrite Z.eqb_refl, andb_false_r.
  - intros i Hib Hiu.
    rewrite complement_testbit by (done || lia).
    rewrite !Z.lor_spec, !(single_bit_testbit AttrBold),
      !(single_bit_testbit AttrUnderline) by done.
    assert ((Z.log2 AttrBold =? i) = false) as -> by (apply Z.eqb_neq; lia).
    assert ((Z.log2 AttrUnderline =? i) = false) as -> by (apply Z.eqb_neq; lia).
    by rewrite !orb_false_r, andb_true_r.
Qed.

(** C10. In a markup with the table of [NewMarkup], whatever the
    foreground word holds, the closing tag of a color ([</base>],
    [</highlight>], [</market>]) and the universal close [</>] are
    recognised and replace the whole foreground word by the default
    color, in which none of the bold, underline and reverse bits is
    set. *)
Theorem color_close_clears_attributes (color : Color) (markup : Markup) (str : string) :
  wf →
  tags markup = NewMarkup_tags color →
  str ∈ ["</base>"; "</highlight>"; "</market>"; "</>"] →
  IsTag markup str = (true, set_Foreground ColorDefault markup) ∧
  Z.testbit ColorDefault (Z.log2 AttrBold) = false ∧
  Z.testbit ColorDefault (Z.log2 AttrUnderline) = false ∧
  Z.testbit ColorDefault (Z.log2 AttrReverse) = false.
Proof.
  intros Hwf Htags Hstr.
  pose proof (wf_bits Hwf) as (Hb0 & Hbu & Hur & Hrw).
  assert (0 ≤ ColorDefault < AttrBold) as Hdef.
  { destruct Hwf as (Hcolors & _). by apply Forall_cons in Hcolors as [? _]. }
  assert (0 ≤ ColorWhite < AttrBold) as Hwhite.
  { destruct Hwf as (Hcolors & _). unfold colors in Hcolors.
    repeat (apply Forall_cons in Hcolors as [? Hcolors]). assumption. }
  split.
  - repeat (apply elem_of_cons in Hstr as [->|Hstr]).
    + change (IsTag markup "</base>") with (process markup "base" false).
      apply (process_close_color markup "base" ColorWhite); [|done|lia].
      by rewrite Htags.
    + change (IsTag markup "</highlight>") with (process markup "highlight" false).
      apply (process_close_color markup "highlight"
               (terminalColor_at (Highlight color))); [|done|].
      * by rewrite Htags.
      * by apply terminalColor_at_color.
    + change (IsTag markup "</market>") with (process markup "market" false).
      apply (process_close_color markup "market"
               (terminalColor_at (Market color))); [|done|].
      * by rewrite Htags.
      * by apply terminalColor_at_color.
    + change (IsTag markup "</>") with (process markup "/" false).
      apply (process_close_color markup "/" ColorDefault); [|done|lia].
      by rewrite Htags.
    + by apply elem_of_nil in Hstr.
  - repeat split; apply color_testbit; (done || lia).
Qed.

End RenderState.

(** The assignment [v1] of the constants is well formed. *)
Lemma v1_wf : @wf v1.
Proof.
  unfold wf, single_bit, colors; cbn.
  split.
  - repeat (apply Forall_cons; split; [lia|]). constructor.
  - repeat split; lia || reflexivity.
Qed.

Lemma bold_underline_unbold_witness :
  let r1 := @IsTag v1 sample.green_reversed "<b>" in
  let r2 := @IsTag v1 r1.2 "<u>" in
  let r3 := @IsTag v1 r2.2 "</b>" in
  (r1.1 = true ∧ r2.1 = true ∧ r3.1 = true) ∧
  Z.testbit (Foreground r3.2) 13 = true ∧
  Z.testbit (Foreground r3.2) 9 = false ∧
  ∀ i, i ≠ 9 → i ≠ 13 →
       Z.testbit (Foreground r3.2) i = Z.testbit (Z.lor 3 32768) i.
Proof.
  apply (@bold_underline_unbold v1 sample.colors
           sample.green_reversed).
  - apply v1_wf.
  - reflexivity.
  - vm_compute. split; [discriminate | reflexivity].
Defined.

Lemma color_close_clears_attributes_witness :
  @IsTag v1 sample.green_reversed "</highlight>"
    = (true, @set_Foreground 0 sample.green_reversed) ∧
  Z.testbit 0 9 = false ∧ Z.testbit 0 13 = false ∧ Z.testbit 0 15 = false.
Proof.
  apply (@color_close_clears_attributes v1 sample.colors
           sample.green_reversed "</highlight>").
  - apply v1_wf.
  - reflexivity.
  - apply list_elem_of_further, list_elem_of_here.
Defined.

(** ** The filter *)

Section Filter.
Import govaluate model filter.
Context `{lib : Library} `{eng : !Engine} `{hlp : !Helpers}.

Lemma Apply_loop_rejected (filter : Filter) (stocks kept : list Stock)
  (seen : list (gmap string any)) :
  Exists (λ stock, rejected (Evaluate (FilterExpression (profile filter))
                                      (values stock)) = true) stocks →
  ∃ p, result (Apply_loop filter stocks kept seen) = Panicked p.
Proof.
  revert kept seen; induction stocks as [|stock stocks IH]; intros kept seen Hex.
  - by apply Exists_nil in Hex.
  - cbn -[values].
    destruct (Evaluate (FilterExpression (profile filter)) (values stock))
      as [value [err|]] eqn:Heval.
    + cbn. eauto.
    + destruct value; cbn; eauto.
      apply IH. apply Exists_cons in Hex as [Hbad|Hex]; [|done].
      by rewrite Heval in Hbad.
Qed.

(** C3. If, for some record of the collection, [Evaluate] returns an
    error or a value that is not a boolean, [Apply] panics: it returns
    no collection at all. *)
Theorem Apply_rejects (filter : Filter) (stocks : list Stock) (stock : Stock) :
  stock ∈ stocks →
  rejected (Evaluate (FilterExpression (profile filter)) (values stock)) = true →
  ∃ p, result (Apply filter stocks) = Panicked p.
Proof.
  intros Hin Hbad. apply Apply_loop_rejected.
  apply Exists_exists. eauto.
Qed.

Lemma Apply_loop_all_true (filter : Filter) (stocks kept : list Stock)
  (seen : list (gmap string any)) :
  Forall (λ stock, Evaluate (FilterExpression (profile filter)) (values stock)
                   = (ABool true, None)) stocks →
  Apply_loop filter stocks kept seen
  = {| evaluated := (seen ++ (values <$> stocks))%list;
       result := Returned (kept ++ stocks)%list |}.
Proof.
  revert kept seen; induction stocks as [|stock stocks IH]; intros kept seen Hall.
  - cbn. by rewrite !app_nil_r.
  - apply Forall_cons in Hall as [Hstock Hall].
    cbn -[values]. rewrite Hstock. rewrite IH by done. unfold append.
    by rewrite <- !app_assoc.
Qed.

(** C4, as the code has it. When the filter expression evaluates to
    the boolean [true] on every record of the collection, [Apply] hands
    the bindings of each record to [Evaluate], once and in order, and
    returns the input collection, in the same order. The filter text
    plays no part: an empty one is no shortcut. *)
Theorem Apply_all_true (filter : Filter) (stocks : list Stock) :
  Forall (λ stock, Evaluate (FilterExpression (profile filter)) (values stock)
                   = (ABool true, None)) stocks →
  Apply filter stocks
  = {| evaluated := values <$> stocks; result := Returned stocks |}.
Proof.
  intros Hall. unfold Apply. by rewrite Apply_loop_all_true.
Qed.

End Filter.

Section FilterSamples.
Import govaluate model filter.
Local Existing Instances sample.floats sample.library sample.engine sample.helpers.

(** On an expression that evaluates to nil the filter panics. *)
Lemma Apply_rejects_witness :
  ∃ p, result (Apply (NewFilter (sample.a_profile "1 +" ANil)) sample.stocks)
       = Panicked p.
Proof.
  apply (Apply_rejects (NewFilter (sample.a_profile "1 +" ANil)) sample.stocks
           (sample.a_stock "GOOG" "-3.20" false)).
  - apply list_elem_of_further, list_elem_of_here.
  - vm_compute. reflexivity.
Defined.

Lemma Apply_all_true_witness :
  Apply (NewFilter (sample.a_profile "" (ABool true))) sample.stocks
  = {| evaluated := values <$> sample.stocks; result := Returned sample.stocks |}.
Proof.
  apply (Apply_all_true (NewFilter (sample.a_profile "" (ABool true))) sample.stocks).
  repeat (apply Forall_cons; split; [reflexivity|]). constructor.
Defined.

(** C4 fails as stated. With an empty filter text, and an expression
    that evaluates to nil, [Apply] does evaluate: it hands the bindings
    of the first record to the engine, and it panics instead of
    returning the records. *)
Lemma Apply_empty_filter_evaluates :
  let filter := NewFilter (sample.a_profile "" ANil) in
  config.Filter (profile filter) = "" ∧
  ¬ (evaluated (Apply filter sample.stocks) = []
     ∧ result (Apply filter sample.stocks) = Returned sample.stocks).
Proof.
  split; [reflexivity|]. intros [Hev _].
  apply (f_equal length) in Hev. vm_compute in Hev. discriminate Hev.
Qed.

End FilterSamples.

(** ** Fetching the quotes *)

Section Fetch.
Import govaluate model.
Context `{lib : Library} `{eng : !Engine}.

(** When the quotes are not ready nothing is fetched and nothing changes. *)
Lemma Fetch_not_ready http_Get market profile quotes :
  isReady market profile quotes = false →
  Fetch http_Get market profile quotes = quotes.
Proof. intros Hready. unfold Fetch. by rewrite Hready. Qed.

(** A failure of the transfer is recorded and the stocks are kept. *)
Lemma Fetch_transfer_failed http_Get market profile quotes (err : error) :
  isReady market profile quotes = true →
  http_Get (Fetch_url profile) = GetFailed err
  ∨ http_Get (Fetch_url profile) = ReadFailed err →
  Fetch http_Get market profile quotes
  = set_errors (newline ++ newline ++ newline ++ newline
                ++ "Error fetching stock quotes..." ++ newline ++ err) quotes.
Proof.
  intros Hready Hget. unfold Fetch, Fetch_body. rewrite Hready.
  fold (Fetch_url profile). by destruct Hget as [-> | ->].
Qed.

(** A body that decodes replaces the stocks and clears the error. *)
Lemma Fetch_decoded http_Get market profile quotes (body : string) d :
  isReady market profile quotes = true →
  http_Get (Fetch_url profile) = Body body →
  Unmarshal body = (d, None) →
  Fetch http_Get market profile quotes
  = {| Stocks := Some (parse2_stock <$>
                         default [] (default ∅ (d !! "quoteResponse") !! "result"));
       errors := "" |}.
Proof.
  intros Hready Hget Hjson. unfold Fetch, Fetch_body. rewrite Hready.
  fold (Fetch_url profile). rewrite Hget. unfold parse2. by rewrite Hjson.
Qed.

(** C9, where the code departs from it. When the transfer succeeds but
    the body does not decode, [parse2] returns the error and [Fetch]
    drops it: the stocks are kept, but no error is recorded, and an
    error recorded by an earlier failure is erased. *)
Theorem Fetch_drops_decoding_error http_Get market profile quotes
  (body : string) d (err : error) :
  isReady market profile quotes = true →
  http_Get (Fetch_url profile) = Body body →
  Unmarshal body = (d, Some err) →
  (parse2 quotes body).2 = Some err ∧
  Fetch http_Get market profile quotes
  = {| Stocks := Stocks quotes; errors := "" |}.
Proof.
  intros Hready Hget Hjson. unfold Fetch, Fetch_body. rewrite Hready.
  fold (Fetch_url profile). rewrite Hget. unfold parse2. by rewrite Hjson.
Qed.

End Fetch.

Section FetchSamples.
Import govaluate model.
Local Existing Instances sample.floats sample.library sample.engine.

Lemma Fetch_drops_decoding_error_witness :
  let quotes := {| Stocks := Some sample.stocks; errors := "timeout" |} in
  (parse2 quotes "").2 = Some "unexpected end of JSON input" ∧
  Fetch (λ _, Body "") {| IsClosed := false |} (sample.a_profile "" ANil) quotes
  = {| Stocks := Some sample.stocks; errors := "" |}.
Proof.
  apply (Fetch_drops_decoding_error (λ _, Body "") {| IsClosed := false |}
           (sample.a_profile "" ANil)
           {| Stocks := Some sample.stocks; errors := "timeout" |} "" ∅).
  - reflexivity.
  - reflexivity.
  - reflexivity.
Defined.

End FetchSamples.

(** ** The column editor *)

Section ColumnEditor.
Import govaluate session column_editor.
Context `{tb : Constants} `{eng : Engine} `{met : !Methods} `{ren : !Rendering}.

Lemma wrap_int_small (z : Z) : - 2 ^ 63 ≤ z < 2 ^ 63 → wrap_int z = z.
Proof. intros Hz. unfold wrap_int. rewrite Z.mod_small; lia. Qed.

(** C7. With [n] columns in the layout, [1 ≤ n], selecting left from
    column 0 lands on column [n - 1] and selecting right from column
    [n - 1] lands on column 0; neither changes the sort column,
    wherever the selection is. *)
Theorem column_wraparound (editor : ColumnEditor) (w : World) :
  let n := TotalColumns (layout editor) in
  1 ≤ n < 2 ^ 63 →
  (SelectedColumn (profile w) = 0 →
   SelectedColumn (profile (selectLeftColumn editor w)) = n - 1) ∧
  (SelectedColumn (profile w) = n - 1 →
   SelectedColumn (profile (selectRightColumn editor w)) = 0) ∧
  SortColumn (profile (selectLeftColumn editor w)) = SortColumn (profile w) ∧
  SortColumn (profile (selectRightColumn editor w)) = SortColumn (profile w).
Proof.
  intros n Hn. subst n. repeat split.
  - intros Hsel. unfold selectLeftColumn. rewrite Hsel.
    rewrite !wrap_int_small by lia. reflexivity.
  - intros Hsel. unfold selectRightColumn. rewrite Hsel.
    rewrite !wrap_int_small by lia. cbn.
    assert ((TotalColumns (layout editor) - 1
             <? TotalColumns (layout editor) - 1 + 1) = true) as ->
      by (apply Z.ltb_lt; lia).
    reflexivity.
  - unfold selectLeftColumn. cbn. by destruct (_ <? _).
  - unfold selectRightColumn. cbn. by destruct (_ <? _).
Qed.

End ColumnEditor.

Section ColumnEditorSamples.
Import govaluate session column_editor.
Local Existing Instances sample.floats sample.engine sample.methods sample.rendering.

(** With fifteen columns: from column 0 the left arrow lands on column
    14, from column 14 the right arrow lands on column 0, and the sort
    column stays where it was. *)
Lemma column_wraparound_witness :
  let editor := {| layout := {| TotalColumns := 15 |} |} in
  let first := sample.a_world 15 (set_SelectedColumn 0 (sample.a_profile "" ANil)) in
  let last := sample.a_world 15 (set_SelectedColumn 14 (sample.a_profile "" ANil)) in
  (SelectedColumn (profile first) = 0 ∧
   SelectedColumn (profile (selectLeftColumn editor first)) = 14) ∧
  (SelectedColumn (profile last) = 14 ∧
   SelectedColumn (profile (selectRightColumn editor last)) = 0) ∧
  SortColumn (profile (selectLeftColumn editor first)) = SortColumn (profile first) ∧
  SortColumn (profile (selectRightColumn editor last)) = SortColumn (profile last).
Proof.
  intros editor first last.
  assert (1 ≤ TotalColumns (layout editor) < 2 ^ 63) as Hn by (cbn; lia).
  destruct (column_wraparound editor first Hn) as (Hleft & _ & Hsort_left & _).
  destruct (column_wraparound editor last Hn) as (_ & Hright & _ & Hsort_right).
  split; [split; [reflexivity | exact (Hleft eq_refl)]|].
  split; [split; [reflexivity | exact (Hright eq_refl)]|].
  split; [exact Hsort_left | exact Hsort_right].
Defined.

End ColumnEditorSamples.

(** ** The main loop *)

Section MainLoop.
Import govaluate session column_editor line_editor mop.
Context `{tb : Constants} `{eng : Engine} `{met : !Methods}
        `{ren : !Rendering} `{led : !Interface}.

Lemma run_line_editing (st : Loop) (w : World) (editor : LineEditor)
  (events : list Event) :
  Forall (λ event, Type_ event = EventKey) events →
  lineEditor st = Some editor →
  run st w (keyboardQueue <$> events)
  = match line_editing editor w events with
    | (Some editor', w', _) => (Continue, set_lineEditor (Some editor') st, w')
    | (None, w', rest) => run (set_lineEditor None st) w' (keyboardQueue <$> rest)
    end.
Proof.
  intros Hkeys. revert st w editor.
  induction Hkeys as [|event events Hkey Hkeys IH]; intros st w editor Hed.
  - cbn. by destruct st; cbn in *; subst.
  - cbn [fmap list_fmap run step line_editing]. rewrite Hkey.
    unfold key. rewrite Hed.
    destruct (line_editor.Handle editor event w) as [[[|] editor'] w'].
    + reflexivity.
    + rewrite (IH _ _ editor') by done.
      destruct (line_editing editor' w' events) as [[[editor''|] w''] rest];
        by destruct st.
Qed.

Lemma run_column_editing (st : Loop) (w : World) (editor : ColumnEditor)
  (events : list Event) :
  Forall (λ event, Type_ event = EventKey) events →
  lineEditor st = None →
  columnEditor st = Some editor →
  run st w (keyboardQueue <$> events)
  = match column_editing editor w events with
    | (true, w', _) => (Continue, st, w')
    | (false, w', rest) => run (set_columnEditor None st) w' (keyboardQueue <$> rest)
    end.
Proof.
  intros Hkeys. revert w.
  induction Hkeys as [|event events Hkey Hkeys IH]; intros w Hline Hcol.
  - reflexivity.
  - cbn [fmap list_fmap run step column_editing]. rewrite Hkey.
    unfold key. rewrite Hline, Hcol.
    destruct (column_editor.Handle editor event w) as [[|] w'].
    + reflexivity.
    + by apply IH.
Qed.

(** The loop only breaks on a key event that finds no editor active
    and no help showing. *)
Lemma Break_only_without_editor (st st' : Loop) (w w' : World) (msg : Message) :
  step st w msg = (Break, st', w') →
  lineEditor st = None ∧ columnEditor st = None ∧ showingHelp st = false.
Proof.
  destruct msg as [event| | |]; cbn; try done.
  destruct (Type_ event); try done.
  unfold key.
  destruct (lineEditor st) as [editor|].
  { by destruct (line_editor.Handle editor event w) as [[[|] ?] ?]. }
  destruct (columnEditor st) as [editor|].
  { by destruct (column_editor.Handle editor event w) as [[|] ?]. }
  by destruct (showingHelp st).
Qed.

(** The two editors are never active together: an editor is only
    created by a command, which runs when there is none. *)
Lemma one_editor_step (st st' : Loop) (w w' : World) (msg : Message) (c : Control) :
  step st w msg = (c, st', w') →
  lineEditor st = None ∨ columnEditor st = None →
  lineEditor st' = None ∨ columnEditor st' = None.
Proof.
  intros Hstep Hone.
  destruct msg as [event| | |]; cbn in Hstep; try (by simplify_eq).
  destruct (Type_ event); try (by simplify_eq).
  unfold key in Hstep.
  destruct (lineEditor st) as [editor|] eqn:Hline.
  { destruct Hone as [?|Hcol]; [done|].
    destruct (line_editor.Handle editor event w) as [[[|] ?] ?];
      simplify_eq; cbn; auto. }
  destruct (columnEditor st) as [editor|] eqn:Hcol.
  { destruct (column_editor.Handle editor event w) as [[|] ?];
      simplify_eq; cbn; auto. }
  destruct (showingHelp st); [simplify_eq; cbn; auto|].
  unfold command in Hstep.
  repeat match type of Hstep with
         | (if ?b then _ else _) = _ => destruct b
         | (let '(_, _) := ?x in _) = _ => destruct x
         | match ?x with _ => _ end = _ => destruct x
         end; simplify_eq; cbn; rewrite ?Hline, ?Hcol; auto.
Qed.

Lemma one_editor_run (msgs : list Message) (st st' : Loop) (w w' : World)
  (c : Control) :
  run st w msgs = (c, st', w') →
  lineEditor st = None ∨ columnEditor st = None →
  lineEditor st' = None ∨ columnEditor st' = None.
Proof.
  revert st w; induction msgs as [|msg msgs IH]; intros st w Hrun Hone.
  - cbn in Hrun. by simplify_eq.
  - cbn in Hrun. destruct (step st w msg) as [[[|] st1] w1] eqn:Hstep.
    + eapply IH; [done|]. by eapply one_editor_step.
    + simplify_eq. by eapply one_editor_step.
Qed.

(** From its start to its end [mainLoop] has at most one editor. *)
Lemma mainLoop_one_editor (msgs : list Message) (st' : Loop) (w w' : World)
  (c : Control) :
  mainLoop w msgs = (c, st', w') →
  lineEditor st' = None ∨ columnEditor st' = None.
Proof.
  unfold mainLoop. intros Hrun. eapply one_editor_run; [done|]. by left.
Qed.

(** C5. While a line editor, or else a column editor, is active, the
    main loop on a sequence of key events does exactly what the editor
    does on its own: every event, Esc, q and Q included, is handed to
    [Handle] of that editor and to nothing else, and the loop goes on.
    Only the events that follow the one on which [Handle] reports
    [true] are treated by the loop with the editor gone; so if
    [Handle] never reports [true] the loop is still running, with the
    editor, at the end of the sequence. *)
Theorem modal_editor_has_focus (st : Loop) (w : World) (events : list Event) :
  Forall (λ event, Type_ event = EventKey) events →
  (∀ editor, lineEditor st = Some editor →
     run st w (keyboardQueue <$> events)
     = match line_editing editor w events with
       | (Some editor', w', _) => (Continue, set_lineEditor (Some editor') st, w')
       | (None, w', rest) => run (set_lineEditor None st) w' (keyboardQueue <$> rest)
       end) ∧
  (∀ editor, lineEditor st = None → columnEditor st = Some editor →
     run st w (keyboardQueue <$> events)
     = match column_editing editor w events with
       | (true, w', _) => (Continue, st, w')
       | (false, w', rest) => run (set_columnEditor None st) w' (keyboardQueue <$> rest)
       end).
Proof.
  intros Hkeys. split.
  - intros editor. by apply run_line_editing.
  - intros editor. by apply run_column_editing.
Qed.

(** The three ticker messages and what each one draws. *)
Lemma run_ticks_suppressed (st : Loop) (w : World) (ticks : list Message) :
  Forall (λ msg, msg ∈ [timestampQueue; quotesQueue; marketQueue]) ticks →
  paused st = true ∨ showingHelp st = true →
  run st w ticks = (Continue, st, w).
Proof.
  intros Hticks Hgate. revert w.
  induction Hticks as [|msg ticks Hmsg Hticks IH]; intros w; [done|].
  assert (∀ what, tick st w what = w) as Htick.
  { intros what. unfold tick. destruct Hgate as [-> | ->]; by rewrite ?andb_false_r. }
  repeat (apply elem_of_cons in Hmsg as [->|Hmsg]);
    [ .. | by apply elem_of_nil in Hmsg]; cbn [run step]; rewrite Htick; apply IH.
Qed.

(** C6. When the pause flag is set or the help is showing, a tick of
    any of the three tickers leaves the loop and the screen as they
    are (no call is made on the screen), and so does any sequence of
    ticks. When neither holds, a tick makes exactly one call on the
    screen: the [Draw] of the time, of the quotes or of the market. *)
Theorem ticks_gated (st : Loop) (w : World) :
  (paused st = true ∨ showingHelp st = true →
   ∀ ticks,
     Forall (λ msg, msg ∈ [timestampQueue; quotesQueue; marketQueue]) ticks →
     run st w ticks = (Continue, st, w)) ∧
  (paused st = false → showingHelp st = false →
   step st w timestampQueue = (Continue, st, on_screen (Draw [TheTime]) w) ∧
   step st w quotesQueue = (Continue, st, on_screen (Draw [TheQuotes]) w) ∧
   step st w marketQueue = (Continue, st, on_screen (Draw [TheMarket]) w) ∧
   ∀ what, calls (screen (on_screen (Draw [what]) w))
           = (calls (screen w) ++ [Draw [what]])%list).
Proof.
  split.
  - intros Hgate ticks Hticks. by apply run_ticks_suppressed.
  - intros Hp Hh. cbn [step]. unfold tick. rewrite Hp, Hh. cbn.
    repeat split.
Qed.

End MainLoop.

Section MainLoopSamples.
Import govaluate session column_editor line_editor mop.
Local Existing Instances v1 sample.floats sample.engine sample.methods
  sample.rendering sample.editor.

(** With the line editor active, q and Q do not stop the loop. *)
Lemma modal_editor_has_focus_witness :
  let w := sample.a_world 15 (sample.a_profile "" ANil) in
  run sample.editing w (keyboardQueue <$> [sample.key_q; sample.key_Q])
  = (Continue, sample.editing, w).
Proof.
  intros w.
  assert (Forall (λ event, Type_ event = EventKey) [sample.key_q; sample.key_Q])
    as Hkeys by (repeat constructor).
  destruct (modal_editor_has_focus sample.editing w
              [sample.key_q; sample.key_Q] Hkeys) as [Hline _].
  rewrite (Hline () eq_refl). reflexivity.
Defined.

(** Paused, three ticks draw nothing; not paused, a tick draws. *)
Lemma ticks_gated_witness :
  let w := sample.a_world 15 (sample.a_profile "" ANil) in
  run (sample.idle true) w [timestampQueue; quotesQueue; marketQueue]
  = (Continue, sample.idle true, w) ∧
  step (sample.idle false) w quotesQueue
  = (Continue, sample.idle false, on_screen (Draw [TheQuotes]) w).
Proof.
  intros w. split.
  - destruct (ticks_gated (sample.idle true) w) as [Hgate _].
    apply Hgate; [by left|].
    repeat (apply Forall_cons; split;
            [repeat first [apply list_elem_of_here | apply list_elem_of_further]|]).
    constructor.
  - destruct (ticks_gated (sample.idle false) w) as [_ Hdraw].
    by destruct (Hdraw eq_refl eq_refl) as (_ & Hquotes & _).
Defined.

End MainLoopSamples.

(** * Further properties of the code *)

(** ** More on strings *)

Section MoreStrings.

Lemma substring_nil (n m : nat) : substring n m "" = "".
Proof. by destruct n, m. Qed.

Lemma length_substring (s : string) (n m : nat) :
  (n + m ≤ String.length s)%nat → String.length (substring n m s) = m.
Proof.
  revert n m; induction s as [|a s IH]; intros n m Hlen; cbn in Hlen.
  - assert (n = 0 ∧ m = 0)%nat as [-> ->] by lia. done.
  - destruct n as [|n]; cbn.
    + destruct m as [|m]; cbn; [done|]. f_equal. apply IH. lia.
    + apply IH. lia.
Qed.

Lemma substring_app_l (s t : string) : substring 0 (String.length s) (s ++ t) = s.
Proof.
  induction s as [|a s IH].
  - rewrite append_nil_l. cbn. apply substring_zero.
  - rewrite append_cons. cbn. by rewrite IH.
Qed.

Lemma substring_app_r (s t : string) (n : nat) :
  substring (String.length s) n (s ++ t) = substring 0 n t.
Proof.
  induction s as [|a s IH]; [done|]. rewrite append_cons. cbn. apply IH.
Qed.

(** A slice of one byte is the byte at that place. *)
Lemma substring_get (s : string) (n : nat) (c : ascii) :
  substring n 1 s = String c "" ↔ String.get n s = Some c.
Proof.
  revert n; induction s as [|a s IH]; intros n.
  - rewrite substring_nil. by destruct n.
  - destruct n as [|n]; cbn.
    + rewrite substring_zero. split; by intros [= ->].
    + apply IH.
Qed.

Lemma substring_drop (s : string) (i k : nat) :
  substring 0 k (drop i s) = substring i k s.
Proof.
  revert i; induction s as [|a s IH]; intros [|i]; try done.
  - cbn [drop]. by rewrite !substring_nil.
  - cbn [drop]. rewrite IH. by destruct k.
Qed.

Lemma length_drop (s : string) (i : nat) :
  String.length (drop i s) = (String.length s - i)%nat.
Proof.
  revert i; induction s as [|a s IH]; intros [|i]; cbn; try done.
Qed.

End MoreStrings.

(** ** Text without tags *)

Section Plain.

Lemma match_tag_lt (tag s : string) (n : nat) :
  match_tag tag s = Some n → String.get 0 s = Some "<"%char.
Proof.
  unfold match_tag. destruct s as [|b s].
  - rewrite !append_cons. cbn. done.
  - rewrite !append_cons, !prefix_cons.
    destruct (ascii_dec "<" b) as [<-|]; [done|discriminate].
Qed.

Lemma match_here_lt (alts : list string) (s : string) (n : nat) :
  match_here alts s = Some n → String.get 0 s = Some "<"%char.
Proof.
  induction alts as [|tag alts IH]; cbn; [done|].
  destruct (match_tag tag s) eqn:Ht; [|done].
  intros _. by eapply match_tag_lt.
Qed.

Lemma find_from_no_lt (alts : list string) (s : string) (pos : nat) :
  no_lt s = true → find_from alts s pos 0 = [].
Proof.
  revert pos; induction s as [|a s IH]; intros pos Hs; cbn; [done|].
  cbn in Hs. apply andb_true_iff in Hs as [Ha Hs].
  destruct (match_here alts (String a s)) as [n|] eqn:Hm.
  - apply match_here_lt in Hm. cbn in Hm. by simplify_eq.
  - by apply IH.
Qed.

(** X1. A text without the byte [<] has no tag: [Tokenize] returns it
    whole as its only token, and returns no token at all for the empty
    text. *)
Theorem Tokenize_plain (markup : Markup) (str : string) :
  no_lt str = true →
  Tokenize markup str = Some (if String.eqb str "" then [] else [str]).
Proof.
  intros Hstr. unfold Tokenize, FindAllStringIndex.
  rewrite find_from_no_lt by done. cbn.
  destruct str as [|a str]; [done|].
  rewrite slice_Some by (cbn; lia).
  cbn [String.eqb mbind option_bind]. unfold append. cbn [app].
  do 2 f_equal. rewrite Nat.sub_0_r. apply substring_all.
Qed.

Lemma Tokenize_plain_witness :
  Tokenize (@NewMarkup v1 sample.colors) "331.76" = Some ["331.76"].
Proof.
  apply (Tokenize_plain (@NewMarkup v1 sample.colors) "331.76"). reflexivity.
Defined.

End Plain.

(** ** The syntax of a tag *)

Section Syntax.
Context `{tb : Constants}.

Lemma probeForTag_close (name : string) :
  name ≠ "" → probeForTag ("</" ++ name ++ ">") = (name, false).
Proof.
  intros Hname. destruct name as [|c name]; [done|].
  rewrite !append_cons, append_nil_l.
  unfold probeForTag, extractTagName.
  cbn [String.length]. rewrite length_append. cbn [String.length].
  rewrite Nat.add_1_r.
  replace (S (S (S (S (String.length name)))) - 1)%nat
    with (S (S (S (String.length name)))) by lia.
  replace (S (S (S (String.length name))) - 2)%nat
    with (S (String.length name)) by lia.
  cbn [substring]. rewrite substring_app_r, substring_app_l.
  reflexivity.
Qed.

Lemma probeForTag_open (name : string) :
  name ≠ "" → String.get 0 name ≠ Some "/"%char →
  probeForTag ("<" ++ name ++ ">") = (name, true).
Proof.
  intros Hname Hslash. destruct name as [|c name]; [done|].
  assert (Ascii.eqb c "/" = false) as Hc.
  { apply Ascii.eqb_neq. intros ->. by apply Hslash. }
  rewrite !append_cons, append_nil_l.
  unfold probeForTag, extractTagName.
  cbn [String.length]. rewrite length_append. cbn [String.length].
  rewrite Nat.add_1_r.
  replace (S (S (S (String.length name))) - 1)%nat
    with (S (S (String.length name))) by lia.
  replace (S (S (String.length name)) - 1)%nat
    with (S (String.length name)) by lia.
  cbn [substring]. rewrite substring_app_r, substring_app_l.
  cbn [String.eqb]. rewrite Hc. reflexivity.
Qed.

(** X2. [probeForTag] reads back what the tag syntax writes: for a name
    that is not empty, [</name>] gives the name and the closing form,
    and [<name>] gives the name and the opening form unless the name
    starts with a slash. *)
Theorem probeForTag_round_trip (name : string) :
  name ≠ "" →
  probeForTag ("</" ++ name ++ ">") = (name, false) ∧
  (String.get 0 name ≠ Some "/"%char →
   probeForTag ("<" ++ name ++ ">") = (name, true)).
Proof.
  intros Hname. split.
  - by apply probeForTag_close.
  - by apply probeForTag_open.
Qed.

End Syntax.

Lemma probeForTag_round_trip_witness :
  probeForTag "</highlight>" = ("highlight", false) ∧
  (String.get 0 "highlight" ≠ Some "/"%char →
   probeForTag "<highlight>" = ("highlight", true)).
Proof. apply (probeForTag_round_trip "highlight"). discriminate. Defined.

(** ** What [IsTag] accepts and what it leaves alone *)

Section Accepts.
Context `{tb : Constants}.

Lemma process_true (markup : Markup) (tag : string) (open : bool) :
  (process markup tag open).1 = true.
Proof.
  unfold process. destruct (tags markup !! tag); [|done].
  destruct (String.eqb tag "right"); [done|].
  by destruct open, (AttrBold <=? _).
Qed.

Lemma length_nonempty (s : string) : (0 < String.length s)%nat → String.eqb s "" = false.
Proof. destruct s; cbn; [lia | done]. Qed.

(** The name that [extractTagName] finds in a string of more than two
    bytes is never empty. *)
Lemma extractTagName_nonempty (str : string) :
  (2 < String.length str)%nat → String.eqb (extractTagName str) "" = false.
Proof.
  intros Hlen. unfold extractTagName.
  assert ((String.length str <? 3)%nat = false) as -> by (apply Nat.ltb_ge; lia).
  destruct (negb (String.eqb (substring 1 1 str) "/")).
  - apply length_nonempty. rewrite length_substring; lia.
  - destruct (3 <? String.length str)%nat eqn:H3; [|done].
    apply Nat.ltb_lt in H3.
    apply length_nonempty. rewrite length_substring; lia.
Qed.

Lemma IsTag_true_iff (markup : Markup) (str : string) :
  (IsTag markup str).1 = true ↔
  (2 < String.length str)%nat ∧ String.get 0 str = Some "<"%char
  ∧ String.get (String.length str - 1) str = Some ">"%char.
Proof.
  unfold IsTag, probeForTag.
  destruct ((2 <? String.length str)%nat
            && String.eqb (substring 0 1 str) "<"
            && String.eqb (substring (String.length str - 1) 1 str) ">") eqn:Hcond.
  - apply andb_true_iff in Hcond as [Hcond Hlast].
    apply andb_true_iff in Hcond as [Hlen Hfirst].
    apply Nat.ltb_lt in Hlen.
    apply String.eqb_eq, substring_get in Hfirst, Hlast.
    rewrite extractTagName_nonempty by done.
    by rewrite process_true.
  - cbn. split; [done|].
    intros (Hlen & Hfirst & Hlast). apply Nat.ltb_lt in Hlen.
    apply substring_get in Hfirst, Hlast.
    by rewrite Hlen, Hfirst, Hlast in Hcond.
Qed.

Lemma IsTag_tags (markup : Markup) (str : string) :
  tags (IsTag markup str).2 = tags markup.
Proof.
  unfold IsTag. destruct (probeForTag str) as [tag open].
  destruct (String.eqb tag ""); [done|].
  unfold process. destruct (tags markup !! tag) as [a|]; [|done].
  destruct (String.eqb tag "right"); [done|].
  by destruct open, (AttrBold <=? a).
Qed.

(** X3. [IsTag] answers [true] exactly for the strings of more than two
    bytes that start with [<] and end with [>], whether or not the name
    between them is a tag of the table; when it answers [false] the
    markup is as it was. *)
Theorem IsTag_syntax (markup : Markup) (str : string) :
  ((IsTag markup str).1 = true ↔
   (2 < String.length str)%nat ∧ String.get 0 str = Some "<"%char
   ∧ String.get (String.length str - 1) str = Some ">"%char) ∧
  ((IsTag markup str).1 = false → (IsTag markup str).2 = markup).
Proof.
  split; [apply IsTag_true_iff|].
  unfold IsTag. destruct (probeForTag str) as [tag open].
  destruct (String.eqb tag ""); [done|].
  by rewrite process_true.
Qed.

(** X4. [IsTag] only ever writes the foreground and the alignment flag:
    the tag table, the pattern and the background are never changed.
    On a name that is not in the table nothing is changed at all. *)
Theorem IsTag_frame (markup : Markup) (str : string) :
  tags (IsTag markup str).2 = tags markup ∧
  regex (IsTag markup str).2 = regex markup ∧
  Background (IsTag markup str).2 = Background markup ∧
  (tags markup !! (probeForTag str).1 = None → (IsTag markup str).2 = markup).
Proof.
  unfold IsTag. destruct (probeForTag str) as [tag open]. cbn [fst].
  destruct (String.eqb tag ""); [done|].
  unfold process. destruct (tags markup !! tag) as [a|]; [|done].
  repeat split; try done;
    destruct (String.eqb tag "right"); try done;
    by destruct open, (AttrBold <=? a).
Qed.

Lemma IsTag_each_tags (markup : Markup) (strs : list string) :
  tags (IsTag_each markup strs) = tags markup.
Proof.
  revert markup; induction strs as [|str strs IH]; intros markup; [done|].
  cbn. unfold IsTag_each in IH. rewrite IH. apply IsTag_tags.
Qed.

(** The values of the table of [NewMarkup]: colors below the bold bit
    and the three attributes. *)
Lemma NewMarkup_tags_values (color : Color) (tag : string) (a : Z) :
  wf → NewMarkup_tags color !! tag = Some a →
  0 ≤ a < AttrBold ∨ a = AttrBold ∨ a = AttrUnderline ∨ a = AttrReverse.
Proof.
  intros Hwf Htag.
  assert (0 ≤ ColorDefault < AttrBold ∧ 0 ≤ ColorWhite < AttrBold) as [Hdef Hwhite].
  { destruct Hwf as (Hcolors & _). unfold colors in Hcolors.
    repeat (apply Forall_cons in Hcolors as [? Hcolors]). done. }
  unfold NewMarkup_tags in Htag.
  repeat (apply lookup_insert_Some in Htag as [[_ <-]|[_ Htag]];
          [eauto using terminalColor_at_color|]).
  by rewrite lookup_empty in Htag.
Qed.

Lemma in_word_log2 (x : Z) :
  0 ≤ bits → 0 ≤ x → (x = 0 ∨ Z.log2 x < bits) → 0 ≤ x < 2 ^ bits.
Proof.
  intros Hbits Hx Hlog. split; [done|].
  destruct (decide (x = 0)) as [->|]; [apply Z.pow_pos_nonneg; lia|].
  destruct Hlog as [|Hlog]; [done|].
  apply Z.log2_lt_pow2; lia.
Qed.

Lemma log2_in_word (x : Z) : 0 < x < 2 ^ bits → Z.log2 x < bits.
Proof. intros [Hx Hlt]. by apply Z.log2_lt_pow2. Qed.

(** X5. With the table of [NewMarkup], [IsTag] keeps the foreground
    inside the [Attribute] word, whatever string it is given. *)
Theorem IsTag_Foreground_in_word (color : Color) (markup : Markup) (str : string) :
  wf →
  tags markup = NewMarkup_tags color →
  0 ≤ Foreground markup < 2 ^ bits →
  0 ≤ Foreground (IsTag markup str).2 < 2 ^ bits.
Proof.
  intros Hwf Htags Hfg.
  pose proof (wf_bits Hwf) as (Hb0 & Hbu & Hur & Hrw).
  assert (0 ≤ bits) as Hbits by lia.
  assert (0 < AttrBold ∧ AttrBold < 2 ^ bits) as [Hbold Hboldw].
  { destruct Hwf as (_ & [? _] & _ & _ & ? & ? & ?). lia. }
  unfold IsTag. destruct (probeForTag str) as [tag open].
  destruct (String.eqb tag ""); [done|].
  unfold process. destruct (tags markup !! tag) as [a|] eqn:Ha; [|done].
  rewrite Htags in Ha.
  assert (0 ≤ a < 2 ^ bits) as Haw.
  { destruct (NewMarkup_tags_values color tag a Hwf Ha) as [ ? | [ -> | [ -> | -> ] ] ];
      destruct Hwf as (_ & _ & _ & _ & ? & ? & ?); lia. }
  destruct (String.eqb tag "right"); [done|].
  destruct open, (AttrBold <=? a) eqn:Hattr; cbn [snd Foreground set_Foreground].
  - apply in_word_log2; [done | apply Z.lor_nonneg; lia |].
    destruct (decide (Foreground markup = 0)) as [->|Hnz].
    + rewrite Z.lor_0_l. apply Z.leb_le in Hattr. right. apply log2_in_word. lia.
    + right. rewrite Z.log2_lor by lia.
      apply Z.leb_le in Hattr.
      pose proof (log2_in_word (Foreground markup)).
      pose proof (log2_in_word a). lia.
  - done.
  - assert (0 ≤ complement a < 2 ^ bits) as Hc.
    { unfold complement. apply Z.mod_pos_bound. by apply Z.pow_pos_nonneg. }
    assert (0 ≤ Z.land (Foreground markup) (complement a)) as Hland
      by (apply Z.land_nonneg; lia).
    apply in_word_log2; [done | done |].
    destruct (decide (Z.land (Foreground markup) (complement a) = 0)) as [|Hnz];
      [by left | right].
    pose proof (Z.log2_land (Foreground markup) (complement a)).
    destruct (decide (Foreground markup = 0)) as [Hz|].
    { rewrite Hz, Z.land_0_l in Hnz. done. }
    pose proof (log2_in_word (Foreground markup)). lia.
  - destruct Hwf as (Hcolors & _). apply Forall_cons in Hcolors as [? _]. lia.
Qed.

End Accepts.

Lemma IsTag_Foreground_in_word_witness :
  0 ≤ Foreground (@IsTag v1 sample.green_reversed "<u>").2 < 2 ^ 64.
Proof.
  apply (@IsTag_Foreground_in_word v1 sample.colors sample.green_reversed "<u>").
  - apply v1_wf.
  - reflexivity.
  - vm_compute. split; [discriminate | reflexivity].
Defined.

(** ** Colors replace, attributes do not nest *)

Section Layers.
Context `{tb : Constants}.



(** X6. With the table of [NewMarkup], the opening tag of a color
    replaces the whole foreground word by the color, a number below the
    bold bit: the color set before and every attribute set before are
    gone. *)
Theorem color_open_replaces (color : Color) (markup : Markup) :
  wf →
  tags markup = NewMarkup_tags color →
  IsTag markup "<base>" = (true, set_Foreground ColorWhite markup) ∧
  IsTag markup "<highlight>"
  = (true, set_Foreground (terminalColor_at (Highlight color)) markup) ∧
  IsTag markup "<market>"
  = (true, set_Foreground (terminalColor_at (config.Market color)) markup) ∧
  Forall (λ c, ∀ i, Z.log2 AttrBold ≤ i → Z.testbit c i = false)
    [ColorWhite; terminalColor_at (Highlight color);
     terminalColor_at (config.Market color)].
Proof.
  intros Hwf Htags.
  assert (0 ≤ ColorWhite < AttrBold) as Hwhite.
  { destruct Hwf as (Hcolors & _). unfold colors in Hcolors.
    repeat (apply Forall_cons in Hcolors as [? Hcolors]). assumption. }
  pose proof (terminalColor_at_color (Highlight color) Hwf) as Hhigh.
  pose proof (terminalColor_at_color (config.Market color) Hwf) as Hmarket.
  repeat split.
  - change (IsTag markup "<base>") with (process markup "base" true).
    apply process_open_color; [by rewrite Htags | done | lia].
  - change (IsTag markup "<highlight>") with (process markup "highlight" true).
    apply process_open_color; [by rewrite Htags | done | lia].
  - change (IsTag markup "<market>") with (process markup "market" true).
    apply process_open_color; [by rewrite Htags | done | lia].
  - repeat (apply Forall_cons; split; [intros i Hi; by apply color_testbit|]).
    constructor.
Qed.


(** X8. With the table of [NewMarkup], whatever strings were handed to
    [IsTag] before, the universal close [</>] leaves the foreground at
    the default color. *)
Theorem universal_close_resets (color : Color) (markup : Markup) (strs : list string) :
  wf →
  tags markup = NewMarkup_tags color →
  Foreground (IsTag_each markup (strs ++ ["</>"])%list) = ColorDefault.
Proof.
  intros Hwf Htags. unfold IsTag_each. rewrite foldl_app. cbn [foldl].
  fold (IsTag_each markup strs).
  change (IsTag ?m "</>") with (process m "/" false).
  rewrite (process_close_color _ "/" ColorDefault); [done | | done |].
  - by rewrite IsTag_each_tags, Htags.
  - destruct Hwf as (Hcolors & _). apply Forall_cons in Hcolors as [? _]. lia.
Qed.

End Layers.

Lemma color_open_replaces_witness :
  @IsTag v1 sample.green_reversed "<base>"
  = (true, set_Foreground 8 sample.green_reversed) ∧
  @IsTag v1 sample.green_reversed "<highlight>"
  = (true, set_Foreground 3 sample.green_reversed) ∧
  @IsTag v1 sample.green_reversed "<market>"
  = (true, set_Foreground 2 sample.green_reversed) ∧
  Forall (λ c, ∀ i, 9 ≤ i → Z.testbit c i = false) [8; 3; 2].
Proof.
  apply (@color_open_replaces v1 sample.colors sample.green_reversed).
  - apply v1_wf.
  - reflexivity.
Defined.


Lemma universal_close_resets_witness :
  Foreground (@IsTag_each v1 sample.green_reversed ["<b>"; "<base>"; "x"; "</>"]) = 0.
Proof.
  apply (@universal_close_resets v1 sample.colors sample.green_reversed
           ["<b>"; "<base>"; "x"]).
  - apply v1_wf.
  - reflexivity.
Defined.

(** ** What the pattern matches, [IsTag] knows *)

Section Agreement.
Context `{tb : Constants}.

Lemma find_from_match (alts : list string) (s : string) (pos skip a b : nat) :
  (a, b) ∈ find_from alts s pos skip →
  ∃ n, (pos ≤ a)%nat ∧ b = (a + n)%nat ∧ match_here alts (drop (a - pos) s) = Some n.
Proof.
  revert pos skip; induction s as [|c s IH]; intros pos skip Hin; cbn in Hin.
  { by apply elem_of_nil in Hin. }
  assert (∀ k, (a, b) ∈ find_from alts s (S pos) k →
            ∃ n, (pos ≤ a)%nat ∧ b = (a + n)%nat
                 ∧ match_here alts (drop (a - pos) (String c s)) = Some n) as Hrest.
  { intros k Hk. destruct (IH _ _ Hk) as (n & Hpos & -> & Hm).
    exists n. split; [lia|]. split; [done|].
    replace (a - pos)%nat with (S (a - S pos)) by lia. done. }
  destruct skip as [|k]; [|by eapply Hrest].
  destruct (match_here alts (String c s)) as [[|l]|] eqn:Hm; [by eapply Hrest| |by eapply Hrest].
  apply elem_of_cons in Hin as [[= -> ->]|Hin]; [|by eapply Hrest].
  exists (S l). rewrite Nat.sub_diag. done.
Qed.

Lemma match_here_tag (alts : list string) (s : string) (n : nat) :
  match_here alts s = Some n →
  ∃ tag, tag ∈ alts ∧
    (substring 0 n s = "</" ++ tag ++ ">" ∨ substring 0 n s = "<" ++ tag ++ ">").
Proof.
  induction alts as [|tag alts IH]; cbn; [done|].
  destruct (match_tag tag s) as [k|] eqn:Ht.
  - intros [= <-]. exists tag. split; [apply list_elem_of_here|].
    unfold match_tag in Ht.
    destruct (String.prefix ("</" ++ tag ++ ">") s) eqn:H1.
    + left. apply prefix_correct in H1. simplify_eq.
      etrans; [|exact H1]. f_equal.
      rewrite !append_cons, append_nil_l. cbn. rewrite length_append. cbn. lia.
    + destruct (String.prefix ("<" ++ tag ++ ">") s) eqn:H2; [|done].
      right. apply prefix_correct in H2. simplify_eq.
      etrans; [|exact H2]. f_equal.
      rewrite !append_cons, append_nil_l. cbn. rewrite length_append. cbn. lia.
  - intros Hm. destruct (IH Hm) as (tag' & Hin & Hsub).
    exists tag'. split; [by apply list_elem_of_further | done].
Qed.

Lemma ordered_elem (lo hi : nat) (ms : list (nat * nat)) (a b : nat) :
  ordered lo hi ms → (a, b) ∈ ms → (lo ≤ a ∧ a < b ∧ b ≤ hi)%nat.
Proof.
  revert lo; induction ms as [|[a' b'] ms IH]; intros lo Hord Hin.
  - by apply elem_of_nil in Hin.
  - destruct Hord as [Hab Hord].
    apply elem_of_cons in Hin as [[= -> ->]|Hin]; [done|].
    specialize (IH _ Hord Hin). lia.
Qed.

(** X9. The pattern and [IsTag] agree. Every place that the pattern of
    [NewMarkup] matches in a text is in range, and the string found
    there is accepted by [IsTag] under a name of the tag table. *)
Theorem matches_are_tags (color : Color) (str : string) (a b : nat) :
  (a, b) ∈ FindAllStringIndex (regex (NewMarkup color)) str →
  ∃ tok, slice str a b = Some tok ∧
         (IsTag (NewMarkup color) tok).1 = true ∧
         is_Some (tags (NewMarkup color) !! (probeForTag tok).1).
Proof.
  intros Hin.
  pose proof (ordered_elem _ _ _ _ _ (FindAllStringIndex_ordered _ str) Hin) as Hab.
  exists (substring a (b - a) str). split; [apply slice_Some; lia|].
  unfold FindAllStringIndex in Hin.
  apply find_from_match in Hin as (n & _ & -> & Hm).
  rewrite Nat.sub_0_r in Hm.
  apply match_here_tag in Hm as (tag & Htag & Hsub).
  rewrite substring_drop in Hsub.
  replace (a + n - a)%nat with n by lia.
  assert (alternatives (regex (NewMarkup color))
          = ["/"; "market"; "u"; "right"; "r"; "base"; "b"; "highlight"]) as Halts
    by (vm_compute; reflexivity).
  rewrite Halts in Htag. rename Htag into Hnames.
  assert (is_Some (tags (NewMarkup color) !! tag)) as Hknown.
  { repeat (apply elem_of_cons in Hnames as [->|Hnames]; [eexists; reflexivity|]).
    apply elem_of_nil in Hnames. destruct Hnames. }
  assert (tag ≠ "") as Hne.
  { intros ->. destruct Hknown as [v Hv]. discriminate Hv. }
  assert ((probeForTag (substring a n str)).1 = tag) as Hprobe.
  { destruct Hsub as [-> | ->].
    - by rewrite probeForTag_close.
    - destruct (decide (tag = "/")) as [->|Hslash]; [reflexivity|].
      rewrite probeForTag_open; [reflexivity | exact Hne |].
      intros Hget.
      repeat (apply elem_of_cons in Hnames as [->|Hnames];
              [first [discriminate Hget | congruence]|]).
      apply elem_of_nil in Hnames. destruct Hnames. }
  rewrite Hprobe. split; [|exact Hknown].
  assert (0 < String.length tag)%nat as Hlen.
  { destruct tag; [congruence | cbn; lia]. }
  apply IsTag_true_iff.
  destruct Hsub as [-> | ->]; rewrite !append_cons, append_nil_l;
    cbn [String.length]; rewrite length_append; cbn [String.length];
    rewrite Nat.add_1_r.
  - replace (S (S (S (String.length tag))) - 1)%nat
      with (S (S (String.length tag))) by lia.
    cbn [String.get]. split; [lia|]. split; [reflexivity|].
    apply substring_get. rewrite substring_app_r. reflexivity.
  - replace (S (S (String.length tag)) - 1)%nat
      with (S (String.length tag)) by lia.
    cbn [String.get]. split; [lia|]. split; [reflexivity|].
    apply substring_get. rewrite substring_app_r. reflexivity.
Qed.

End Agreement.

Lemma matches_are_tags_witness :
  ∃ tok, slice "<b>BA</b>" 5 9 = Some tok ∧
         (@IsTag v1 (@NewMarkup v1 sample.colors) tok).1 = true ∧
         is_Some (tags (@NewMarkup v1 sample.colors) !! (probeForTag tok).1).
Proof.
  apply (@matches_are_tags v1 sample.colors "<b>BA</b>" 5 9).
  vm_compute. apply list_elem_of_further, list_elem_of_here.
Defined.

(** ** The filter keeps the order and stops at the first failure *)

Section FilterOrder.
Import govaluate model filter.
Context `{lib : Library} `{eng : !Engine} `{hlp : !Helpers}.

Lemma Apply_loop_accepted (filter : Filter) (stocks acc : list Stock)
  (seen : list (gmap string any)) :
  Forall (λ stock, rejected (Evaluate (FilterExpression (profile filter))
                                      (values stock)) = false) stocks →
  Apply_loop filter stocks acc seen
  = {| evaluated := (seen ++ (values <$> stocks))%list;
       result := Returned (acc ++ List.filter (kept filter) stocks)%list |}.
Proof.
  revert acc seen; induction stocks as [|stock stocks IH]; intros acc seen Hall.
  - cbn. by rewrite !app_nil_r.
  - apply Forall_cons in Hall as [Hstock Hall].
    cbn -[values]. unfold kept.
    destruct (Evaluate (FilterExpression (profile filter)) (values stock))
      as [value [err|]] eqn:Heval; [by destruct value|].
    destruct value as [|[|]| | | |]; try done;
      rewrite IH by done; unfold append; by rewrite <- !app_assoc.
Qed.

(** X10. When no record is rejected, [Apply] evaluates every record
    once, in order, and returns the records on which the expression is
    true, in the order of the input and without any other record. *)
Theorem Apply_keeps_order (filter : Filter) (stocks : list Stock) :
  Forall (λ stock, rejected (Evaluate (FilterExpression (profile filter))
                                      (values stock)) = false) stocks →
  Apply filter stocks
  = {| evaluated := values <$> stocks;
       result := Returned (List.filter (kept filter) stocks) |}.
Proof. intros Hall. unfold Apply. by rewrite Apply_loop_accepted. Qed.

Lemma Apply_loop_first_rejected (filter : Filter) (before after acc : list Stock)
  (bad : Stock) (seen : list (gmap string any)) :
  Forall (λ stock, rejected (Evaluate (FilterExpression (profile filter))
                                      (values stock)) = false) before →
  rejected (Evaluate (FilterExpression (profile filter)) (values bad)) = true →
  Apply_loop filter (before ++ bad :: after)%list acc seen
  = {| evaluated := (seen ++ (values <$> before) ++ [values bad])%list;
       result := Panicked (rejection filter
                   (Evaluate (FilterExpression (profile filter)) (values bad))) |}.
Proof.
  intros Hbefore Hbad. revert acc seen.
  induction Hbefore as [|stock before Hstock Hbefore IH]; intros acc seen.
  - cbn -[values].
    destruct (Evaluate (FilterExpression (profile filter)) (values bad))
      as [value [err|]] eqn:Heval; [done|].
    by destruct value.
  - cbn -[values].
    destruct (Evaluate (FilterExpression (profile filter)) (values stock))
      as [value [err|]] eqn:Heval; [by destruct value|].
    destruct value; try done.
    rewrite IH. unfold append. by rewrite <- !app_assoc.
Qed.

(** X11. [Apply] stops at the first rejected record: the records before
    it are evaluated, it is evaluated, the records after it are not, and
    the panic carries the error of that evaluation, or the message that
    names the filter text when the value is not a boolean. *)
Theorem Apply_stops_at_first_rejected (filter : Filter)
  (before after : list Stock) (bad : Stock) :
  Forall (λ stock, rejected (Evaluate (FilterExpression (profile filter))
                                      (values stock)) = false) before →
  rejected (Evaluate (FilterExpression (profile filter)) (values bad)) = true →
  Apply filter (before ++ bad :: after)%list
  = {| evaluated := values <$> (before ++ [bad])%list;
       result := Panicked (rejection filter
                   (Evaluate (FilterExpression (profile filter)) (values bad))) |}.
Proof.
  intros Hbefore Hbad. unfold Apply.
  rewrite Apply_loop_first_rejected by done. by rewrite fmap_app.
Qed.

End FilterOrder.

Section FilterOrderSamples.
Import govaluate model filter.
Local Existing Instances sample.floats sample.library sample.engine sample.helpers.

Lemma Apply_keeps_order_witness :
  Apply (NewFilter (sample.a_profile "advancing" (ABool false))) sample.stocks
  = {| evaluated := values <$> sample.stocks; result := Returned [] |}.
Proof.
  apply (Apply_keeps_order (NewFilter (sample.a_profile "advancing" (ABool false)))
           sample.stocks).
  repeat (apply Forall_cons; split; [reflexivity|]). constructor.
Defined.

Lemma Apply_stops_at_first_rejected_witness :
  Apply (NewFilter (sample.a_profile "last" (AString "331.76"))) sample.stocks
  = {| evaluated := values <$> [sample.a_stock "BA" "1.50" true];
       result := Panicked
         (PanicString "Expression `last` should return a boolean value") |}.
Proof.
  apply (Apply_stops_at_first_rejected
           (NewFilter (sample.a_profile "last" (AString "331.76")))
           [] [sample.a_stock "GOOG" "-3.20" false]
           (sample.a_stock "BA" "1.50" true)).
  - constructor.
  - reflexivity.
Defined.

End FilterOrderSamples.

(** ** Moving the selection in the column editor *)

Section Navigation.
Import govaluate session column_editor.
Context `{tb : Constants} `{eng : Engine} `{met : !Methods} `{ren : !Rendering}.

Lemma set_SelectedColumn_same (p : Profile) :
  set_SelectedColumn (SelectedColumn p) p = p.
Proof. by destruct p. Qed.

Lemma set_SelectedColumn_twice (x y : Z) (p : Profile) :
  set_SelectedColumn x (set_SelectedColumn y p) = set_SelectedColumn x p.
Proof. reflexivity. Qed.

Lemma set_profile_same (w : World) : set_profile (profile w) w = w.
Proof. by destruct w. Qed.

(** The two arrows in terms of the selected column alone. *)
Lemma selectLeftColumn_eq (editor : ColumnEditor) (w : World) :
  1 ≤ TotalColumns (layout editor) < 2 ^ 63 →
  - 2 ^ 63 < SelectedColumn (profile w) < 2 ^ 63 →
  selectLeftColumn editor w
  = set_profile
      (set_SelectedColumn
         (if SelectedColumn (profile w) - 1 <? 0
          then TotalColumns (layout editor) - 1
          else SelectedColumn (profile w) - 1) (profile w)) w.
Proof.
  intros Hn Hx. unfold selectLeftColumn.
  rewrite !wrap_int_small by lia. cbn [SelectedColumn set_SelectedColumn].
  by destruct (SelectedColumn (profile w) - 1 <? 0).
Qed.

Lemma selectRightColumn_eq (editor : ColumnEditor) (w : World) :
  1 ≤ TotalColumns (layout editor) < 2 ^ 63 →
  - 2 ^ 63 < SelectedColumn (profile w) < 2 ^ 63 - 1 →
  selectRightColumn editor w
  = set_profile
      (set_SelectedColumn
         (if TotalColumns (layout editor) - 1 <? SelectedColumn (profile w) + 1
          then 0
          else SelectedColumn (profile w) + 1) (profile w)) w.
Proof.
  intros Hn Hx. unfold selectRightColumn.
  rewrite !wrap_int_small by lia. cbn [SelectedColumn set_SelectedColumn].
  by destruct (_ <? _).
Qed.

Lemma arrows_in_range (editor : ColumnEditor) (w : World) :
  1 ≤ TotalColumns (layout editor) < 2 ^ 63 →
  -1 ≤ SelectedColumn (profile w) < TotalColumns (layout editor) →
  0 ≤ SelectedColumn (profile (selectLeftColumn editor w))
    < TotalColumns (layout editor) ∧
  0 ≤ SelectedColumn (profile (selectRightColumn editor w))
    < TotalColumns (layout editor).
Proof.
  intros Hn Hx.
  rewrite selectLeftColumn_eq, selectRightColumn_eq by lia. cbn.
  destruct (_ - 1 <? 0) eqn:Hl, (_ <? _ + 1) eqn:Hr;
    rewrite ?Z.ltb_lt, ?Z.ltb_ge in Hl, Hr; lia.
Qed.

(** X12. From a selected column of the layout, and also from [-1] (no
    column selected), either arrow lands on a column of the layout. *)
Theorem navigation_in_range (editor : ColumnEditor) (w : World) :
  let n := TotalColumns (layout editor) in
  1 ≤ n < 2 ^ 63 →
  -1 ≤ SelectedColumn (profile w) < n →
  0 ≤ SelectedColumn (profile (selectLeftColumn editor w)) < n ∧
  0 ≤ SelectedColumn (profile (selectRightColumn editor w)) < n.
Proof. intros n Hn Hx. by apply arrows_in_range. Qed.

(** X13. On a selected column of the layout the two arrows undo each
    other: left then right, and right then left, give back the world as
    it was. *)
Theorem navigation_inverse (editor : ColumnEditor) (w : World) :
  let n := TotalColumns (layout editor) in
  1 ≤ n < 2 ^ 63 →
  0 ≤ SelectedColumn (profile w) < n →
  selectRightColumn editor (selectLeftColumn editor w) = w ∧
  selectLeftColumn editor (selectRightColumn editor w) = w.
Proof.
  intros n Hn Hx. subst n.
  pose proof (arrows_in_range editor w Hn ltac:(lia)) as [Hleft Hright].
  split.
  - rewrite (selectRightColumn_eq editor (selectLeftColumn editor w)) by lia.
    rewrite selectLeftColumn_eq by lia.
    destruct w as [scr [tickers sort selected text expression color] mkt q].
    cbn in Hx |- *. unfold set_profile, set_SelectedColumn. cbn.
    do 2 f_equal.
    destruct (selected - 1 <? 0) eqn:Hl; rewrite ?Z.ltb_lt, ?Z.ltb_ge in Hl.
    + assert ((TotalColumns (layout editor) - 1
               <? TotalColumns (layout editor) - 1 + 1) = true) as ->
        by (apply Z.ltb_lt; lia).
      lia.
    + assert ((TotalColumns (layout editor) - 1 <? selected - 1 + 1) = false)
        as -> by (apply Z.ltb_ge; lia).
      lia.
  - rewrite (selectLeftColumn_eq editor (selectRightColumn editor w)) by lia.
    rewrite selectRightColumn_eq by lia.
    destruct w as [scr [tickers sort selected text expression color] mkt q].
    cbn in Hx |- *. unfold set_profile, set_SelectedColumn. cbn.
    do 2 f_equal.
    destruct (TotalColumns (layout editor) - 1 <? selected + 1) eqn:Hr;
      rewrite ?Z.ltb_lt, ?Z.ltb_ge in Hr.
    + assert ((0 - 1 <? 0) = true) as -> by done. lia.
    + assert ((selected + 1 - 1 <? 0) = false) as ->
        by (apply Z.ltb_ge; lia).
      lia.
Qed.

Lemma selectRightColumn_iter (editor : ColumnEditor) (w : World) (k : nat) :
  let n := TotalColumns (layout editor) in
  1 ≤ n < 2 ^ 63 →
  0 ≤ SelectedColumn (profile w) < n →
  Nat.iter k (selectRightColumn editor) w
  = set_profile
      (set_SelectedColumn ((SelectedColumn (profile w) + Z.of_nat k) mod n)
         (profile w)) w.
Proof.
  intros n Hn Hx. subst n. induction k as [|k IH].
  - change (Nat.iter 0 (selectRightColumn editor) w) with w.
    rewrite Z.add_0_r, Z.mod_small by lia.
    by rewrite set_SelectedColumn_same, set_profile_same.
  - rewrite Nat.iter_succ, IH.
    pose proof (Z.mod_pos_bound (SelectedColumn (profile w) + Z.of_nat k)
                  (TotalColumns (layout editor)) ltac:(lia)) as Hmod.
    rewrite selectRightColumn_eq by (cbn; lia).
    destruct w as [scr [tickers sort selected text expression color] mkt q].
    cbn in Hx, Hmod |- *. unfold set_profile, set_SelectedColumn. cbn.
    do 2 f_equal.
    replace (selected + Z.of_nat (S k)) with (selected + Z.of_nat k + 1) by lia.
    rewrite <- (Z.add_mod_idemp_l (selected + Z.of_nat k)) by lia.
    destruct (_ <? _) eqn:Hr; rewrite ?Z.ltb_lt, ?Z.ltb_ge in Hr.
    + replace ((selected + Z.of_nat k) mod TotalColumns (layout editor) + 1)
        with (TotalColumns (layout editor)) by lia.
      by rewrite Z.mod_same by lia.
    + by rewrite (Z.mod_small (_ + 1)) by lia.
Qed.

(** X14. The columns form a cycle: on a selected column of the layout,
    as many right arrows as there are columns give back the world as it
    was, and [k] right arrows move the selection by [k] modulo the
    number of columns. *)
Theorem navigation_cycle (editor : ColumnEditor) (w : World) (k : nat) :
  let n := TotalColumns (layout editor) in
  1 ≤ n < 2 ^ 63 →
  0 ≤ SelectedColumn (profile w) < n →
  SelectedColumn (profile (Nat.iter k (selectRightColumn editor) w))
  = (SelectedColumn (profile w) + Z.of_nat k) mod n ∧
  Nat.iter (Z.to_nat n) (selectRightColumn editor) w = w.
Proof.
  intros n Hn Hx. subst n. split.
  - by rewrite selectRightColumn_iter.
  - rewrite selectRightColumn_iter by done.
    rewrite Z2Nat.id by lia.
    rewrite <- (Z.mul_1_l (TotalColumns (layout editor))) at 1.
    rewrite Z.mod_add, Z.mod_small by lia.
    by rewrite set_SelectedColumn_same, set_profile_same.
Qed.

(** X15. [Handle] reports [true] exactly on Esc, where it leaves no
    column selected; and whatever the key, the last two calls it makes
    are the drawing of the header of the profile as the key left it,
    and the flush. Before them it draws the quotes at most once. *)
Theorem Handle_redraws_header (editor : ColumnEditor) (event : Event) (w : World) :
  let r := Handle editor event w in
  r.1 = (Key event =? KeyEsc) ∧
  (Key event = KeyEsc → SelectedColumn (profile r.2) = -1) ∧
  ∃ drawn, (drawn = [] ∨ drawn = [Draw [TheQuotes]]) ∧
    calls (screen r.2)
    = (calls (screen w) ++ drawn
       ++ [DrawLine 0 4 (Header (layout editor) (profile r.2)); Flush])%list.
Proof.
  intros r. subst r. unfold Handle.
  destruct (Key event =? KeyEsc) eqn:Hesc.
  { cbn. split; [done|]. split; [done|]. exists []. split; [by left|].
    unfold append. by rewrite <- !app_assoc. }
  split; [by repeat destruct (Key event =? _)|].
  split; [intros Heq; apply Z.eqb_neq in Hesc; done|].
  destruct (Key event =? KeyEnter).
  { unfold execute. destruct (Reorder (profile w)) as [p [err|]]; cbn.
    - exists []. split; [by left|]. unfold append. by rewrite <- !app_assoc.
    - exists [Draw [TheQuotes]]. split; [by right|].
      unfold append. by rewrite <- !app_assoc. }
  destruct (Key event =? KeyArrowLeft).
  { exists []. split; [by left|]. unfold selectLeftColumn.
    destruct (_ <? 0); cbn; unfold append; by rewrite <- !app_assoc. }
  destruct (Key event =? KeyArrowRight).
  { exists []. split; [by left|]. unfold selectRightColumn.
    destruct (_ <? _); cbn; unfold append; by rewrite <- !app_assoc. }
  exists []. split; [by left|]. cbn. unfold append. by rewrite <- !app_assoc.
Qed.

End Navigation.

Section NavigationSamples.
Import govaluate session column_editor.
Local Existing Instances v1 sample.floats sample.engine sample.methods sample.rendering.

Lemma navigation_in_range_witness :
  let editor := {| layout := {| TotalColumns := 15 |} |} in
  let w := sample.a_world 15 (sample.a_profile "" ANil) in
  0 ≤ SelectedColumn (profile (selectLeftColumn editor w)) < 15 ∧
  0 ≤ SelectedColumn (profile (selectRightColumn editor w)) < 15.
Proof.
  apply (navigation_in_range {| layout := {| TotalColumns := 15 |} |}
           (sample.a_world 15 (sample.a_profile "" ANil))); cbn; lia.
Defined.

Lemma navigation_inverse_witness :
  let editor := {| layout := {| TotalColumns := 15 |} |} in
  let w := selectRightColumn editor (sample.a_world 15 (sample.a_profile "" ANil)) in
  selectRightColumn editor (selectLeftColumn editor w) = w ∧
  selectLeftColumn editor (selectRightColumn editor w) = w.
Proof.
  apply (navigation_inverse {| layout := {| TotalColumns := 15 |} |}
           (selectRightColumn {| layout := {| TotalColumns := 15 |} |}
              (sample.a_world 15 (sample.a_profile "" ANil))));
    vm_compute; split; discriminate || reflexivity.
Defined.

Lemma navigation_cycle_witness :
  let editor := {| layout := {| TotalColumns := 15 |} |} in
  let w := selectRightColumn editor (sample.a_world 15 (sample.a_profile "" ANil)) in
  SelectedColumn (profile (Nat.iter 20 (selectRightColumn editor) w))
  = (SelectedColumn (profile w) + Z.of_nat 20) mod 15 ∧
  Nat.iter (Z.to_nat 15) (selectRightColumn editor) w = w.
Proof.
  apply (navigation_cycle {| layout := {| TotalColumns := 15 |} |}
           (selectRightColumn {| layout := {| TotalColumns := 15 |} |}
              (sample.a_world 15 (sample.a_profile "" ANil))) 20);
    vm_compute; split; discriminate || reflexivity.
Defined.

End NavigationSamples.

(** ** The modes of the main loop *)

Section Modes.
Import govaluate session column_editor line_editor mop.
Context `{tb : Constants} `{eng : Engine} `{met : !Methods}
        `{ren : !Rendering} `{led : !Interface}.

Lemma command_Break (st : Loop) (w : World) (event : Event) :
  (command st w event).1.1 = Break ↔ quit_key event = true.
Proof.
  unfold command, quit_key.
  destruct ((Key event =? KeyEsc) || (Ch event =? rune "q") || (Ch event =? rune "Q"));
    [done|].
  split; [|done].
  repeat match goal with
         | |- context [if ?b then _ else _] => destruct b
         | |- context [let '(_, _) := ?x in _] => destruct x
         | |- context [match ?x with Some _ => _ | None => _ end] => destruct x
         end; done.
Qed.

(** X16. The loop ends in one way only: on a key event that is Esc, q or
    Q and that arrives when no editor is active and the help is not
    showing. It then leaves the loop state and the shared objects as
    they are. *)
Theorem Break_iff (st : Loop) (w : World) (msg : Message) :
  ((step st w msg).1.1 = Break ↔
   ∃ event, msg = keyboardQueue event ∧ Type_ event = EventKey
            ∧ normal st = true ∧ quit_key event = true) ∧
  ((step st w msg).1.1 = Break → step st w msg = (Break, st, w)).
Proof.
  assert (∀ event, Type_ event = EventKey → normal st = true →
            (step st w (keyboardQueue event)).1.1 = (command st w event).1.1
            ∧ ((command st w event).1.1 = Break →
               step st w (keyboardQueue event) = (Break, st, w))) as Hnormal.
  { intros event Hkey Hst. cbn [step]. rewrite Hkey. unfold key.
    unfold normal in Hst.
    destruct (lineEditor st), (columnEditor st), (showingHelp st); try done.
    split; [done|]. intros Hquit. apply command_Break in Hquit.
    unfold command. unfold quit_key in Hquit. by rewrite Hquit. }
  assert (∀ event, Type_ event = EventKey → normal st = false →
            (step st w (keyboardQueue event)).1.1 = Continue) as Hmodal.
  { intros event Hkey Hst. cbn [step]. rewrite Hkey. unfold key.
    unfold normal in Hst.
    destruct (lineEditor st) as [editor|].
    { by destruct (line_editor.Handle editor event w) as [[[|] ?] ?]. }
    destruct (columnEditor st) as [editor|].
    { by destruct (column_editor.Handle editor event w) as [[|] ?]. }
    by destruct (showingHelp st). }
  destruct msg as [event| | |]; try (split; [split; [done|]|done]; by intros (? & ? & _)).
  destruct (Type_ event) eqn:Hkey;
    try (split; [split; [cbn [step]; by rewrite Hkey|]|cbn [step]; by rewrite Hkey];
         intros (? & [= <-] & ? & _); congruence).
  destruct (normal st) eqn:Hst.
  - destruct (Hnormal event Hkey eq_refl) as [Hstep Hsame]. split.
    + rewrite Hstep, command_Break. split.
      * intros Hquit. by exists event.
      * by intros (? & [= <-] & _ & _ & ?).
    + rewrite Hstep. apply Hsame.
  - rewrite (Hmodal event Hkey eq_refl). split; [split; [done|]|done].
    by intros (? & _ & _ & ? & _).
Qed.

Lemma exclusive_step (st st' : Loop) (w w' : World) (msg : Message) (c : Control) :
  step st w msg = (c, st', w') → exclusive st = true → exclusive st' = true.
Proof.
  intros Hstep Hex. unfold exclusive in *.
  destruct msg as [event| | |]; cbn in Hstep; try (by simplify_eq).
  destruct (Type_ event); try (by simplify_eq).
  unfold key in Hstep.
  destruct (lineEditor st) as [editor|] eqn:Hline.
  { destruct (columnEditor st) eqn:Hcol; [done|].
    destruct (showingHelp st) eqn:Hhelp; [done|].
    destruct (line_editor.Handle editor event w) as [[[|] ?] ?];
      simplify_eq; cbn; by rewrite ?Hcol, ?Hhelp. }
  destruct (columnEditor st) as [editor|] eqn:Hcol.
  { destruct (showingHelp st) eqn:Hhelp; [done|].
    destruct (column_editor.Handle editor event w) as [[|] ?];
      simplify_eq; cbn; by rewrite ?Hline, ?Hcol, ?Hhelp. }
  destruct (showingHelp st) eqn:Hhelp.
  { simplify_eq. cbn. by rewrite ?Hline, ?Hcol. }
  unfold command in Hstep.
  repeat match type of Hstep with
         | (if ?b then _ else _) = _ => destruct b
         | (let '(_, _) := ?x in _) = _ => destruct x
         | match ?x with _ => _ end = _ => destruct x
         end; simplify_eq; cbn; by rewrite ?Hline, ?Hcol, ?Hhelp.
Qed.

Lemma exclusive_run (msgs : list Message) (st st' : Loop) (w w' : World)
  (c : Control) :
  run st w msgs = (c, st', w') → exclusive st = true → exclusive st' = true.
Proof.
  revert st w; induction msgs as [|msg msgs IH]; intros st w Hrun Hex.
  - cbn in Hrun. by simplify_eq.
  - cbn in Hrun. destruct (step st w msg) as [[[|] st1] w1] eqn:Hstep.
    + eapply IH; [done|]. by eapply exclusive_step.
    + simplify_eq. by eapply exclusive_step.
Qed.

(** X17. The modes exclude one another: whatever messages [mainLoop]
    receives, at most one of the line editor, the column editor and the
    help is active when they are used up or the loop has ended. *)
Theorem mainLoop_exclusive (w w' : World) (msgs : list Message) (st' : Loop)
  (c : Control) :
  mainLoop w msgs = (c, st', w') → exclusive st' = true.
Proof.
  unfold mainLoop. intros Hrun. by eapply exclusive_run.
Qed.

(** X18. The pause flag changes in one way only: by the key p or P
    arriving when no editor is active and the help is not showing. No
    tick, no resize, no editor and no other command changes it. *)
Theorem paused_changes_by_key (st st' : Loop) (w w' : World) (msg : Message)
  (c : Control) :
  step st w msg = (c, st', w') →
  paused st' ≠ paused st →
  ∃ event, msg = keyboardQueue event ∧ Type_ event = EventKey
           ∧ normal st = true ∧ pause_key event = true
           ∧ paused st' = negb (paused st).
Proof.
  intros Hstep Hchange.
  destruct msg as [event| | |]; cbn in Hstep; try (by simplify_eq).
  destruct (Type_ event) eqn:Hkey; try (by simplify_eq).
  exists event. split; [done|]. split; [done|].
  unfold key in Hstep. unfold normal.
  destruct (lineEditor st) as [editor|].
  { by destruct (line_editor.Handle editor event w) as [[[|] ?] ?]; simplify_eq. }
  destruct (columnEditor st) as [editor|].
  { by destruct (column_editor.Handle editor event w) as [[|] ?]; simplify_eq. }
  destruct (showingHelp st); [by simplify_eq|].
  split; [done|].
  unfold command in Hstep. unfold pause_key.
  destruct ((Ch event =? rune "p") || (Ch event =? rune "P")).
  - repeat match type of Hstep with
           | (if ?b then _ else _) = _ => destruct b
           | (let '(_, _) := ?x in _) = _ => destruct x
           | match ?x with _ => _ end = _ => destruct x
           end; by simplify_eq.
  - repeat match type of Hstep with
           | (if ?b then _ else _) = _ => destruct b
           | (let '(_, _) := ?x in _) = _ => destruct x
           | match ?x with _ => _ end = _ => destruct x
           end; by simplify_eq.
Qed.

End Modes.

Section ModesSamples.
Import govaluate session column_editor line_editor mop.
Local Existing Instances v1 sample.floats sample.engine sample.methods
  sample.rendering sample.editor.

Lemma mainLoop_exclusive_witness :
  exclusive
    (mainLoop (sample.a_world 15 (sample.a_profile "" ANil))
       [keyboardQueue sample.key_p; quotesQueue; keyboardQueue sample.key_q]).1.2
  = true.
Proof.
  destruct (mainLoop (sample.a_world 15 (sample.a_profile "" ANil))
              [keyboardQueue sample.key_p; quotesQueue; keyboardQueue sample.key_q])
    as [[c st'] w'] eqn:Hrun.
  exact (mainLoop_exclusive _ _ _ _ _ Hrun).
Defined.

Lemma paused_changes_by_key_witness :
  ∃ event, keyboardQueue sample.key_p = keyboardQueue event
           ∧ Type_ event = EventKey
           ∧ normal (sample.idle false) = true ∧ pause_key event = true
           ∧ paused (sample.idle true) = negb (paused (sample.idle false)).
Proof.
  apply (paused_changes_by_key (sample.idle false) (sample.idle true)
           (sample.a_world 15 (sample.a_profile "" ANil))
           (on_screen (Draw [TheTime])
              (on_screen (Pause true)
                 (sample.a_world 15 (sample.a_profile "" ANil))))
           (keyboardQueue sample.key_p) Continue).
  - reflexivity.
  - discriminate.
Defined.

End ModesSamples.

(** ** What a fetch leaves behind *)

Section FetchResults.
Import govaluate model.
Context `{lib : Library} `{eng : !Engine}.

Lemma isReady_false (market : Market) (profile : Profile) (quotes : Quotes) :
  isReady market profile quotes = false ↔
  Tickers profile = [] ∨ (IsClosed market = true ∧ Stocks quotes ≠ None).
Proof.
  unfold isReady. destruct (Tickers profile) as [|t ts]; cbn.
  - rewrite andb_false_r. split; [by left | done].
  - rewrite andb_true_r.
    destruct (Stocks quotes), (IsClosed market); cbn; split; try done;
      try (by right); intros [?|[? ?]]; done.
Qed.

(** X19. [Fetch] goes to the network only when there is something to
    fetch: with an empty list of tickers, or with stocks already there
    and the market closed, it returns the quotes as they are, whatever
    the network would answer. In every other state the quotes are
    ready. *)
Theorem Fetch_idle (http_Get : string → Response) (market : Market)
  (profile : Profile) (quotes : Quotes) :
  (Tickers profile = [] ∨ (IsClosed market = true ∧ Stocks quotes ≠ None) →
   Fetch http_Get market profile quotes = quotes) ∧
  (¬ (Tickers profile = [] ∨ (IsClosed market = true ∧ Stocks quotes ≠ None)) →
   isReady market profile quotes = true).
Proof.
  split.
  - intros Hidle. apply Fetch_not_ready. by apply isReady_false.
  - intros Hbusy. destruct (isReady market profile quotes) eqn:Hready; [done|].
    by apply isReady_false in Hready.
Qed.

(** X20. After a failed transfer ([http.Get] or the reading of the body
    fails) the stocks are the ones from before, and [Ok] reports
    [false] with the text that ends in the error. *)
Theorem Fetch_failure_reported (http_Get : string → Response) (market : Market)
  (profile : Profile) (quotes : Quotes) (err : error) :
  isReady market profile quotes = true →
  http_Get (Fetch_url profile) = GetFailed err
  ∨ http_Get (Fetch_url profile) = ReadFailed err →
  Stocks (Fetch http_Get market profile quotes) = Stocks quotes ∧
  Ok (Fetch http_Get market profile quotes)
  = (false, newline ++ newline ++ newline ++ newline
            ++ "Error fetching stock quotes..." ++ newline ++ err).
Proof.
  intros Hready Hget.
  rewrite (Fetch_transfer_failed http_Get market profile quotes err) by done.
  split; reflexivity.
Qed.

(** X21. After a transfer whose body decodes, [Ok] reports [true] with
    an empty text, and the stocks are one per element of
    [quoteResponse.result], in that order: each has the text of
    [symbol] as its ticker, the empty string when the element has no
    such key, and its two P/E fields alike and its two market
    capitalisations alike. *)
Theorem Fetch_success (http_Get : string → Response) (market : Market)
  (profile : Profile) (quotes : Quotes) (body : string) d :
  isReady market profile quotes = true →
  http_Get (Fetch_url profile) = Body body →
  Unmarshal body = (d, None) →
  let results := default [] (default ∅ (d !! "quoteResponse") !! "result") in
  Ok (Fetch http_Get market profile quotes) = (true, "") ∧
  ∃ stocks, Stocks (Fetch http_Get market profile quotes) = Some stocks ∧
    length stocks = length results ∧
    (∀ i raw, results !! i = Some raw →
       Ticker <$> stocks !! i = Some (default "" (to_text <$> raw !! "symbol"))) ∧
    Forall (λ stock, PeRatioX stock = PeRatio stock
                     ∧ MarketCapX stock = MarketCap stock) stocks.
Proof.
  intros Hready Hget Hjson results.
  rewrite (Fetch_decoded http_Get market profile quotes body d) by done.
  fold results. split; [reflexivity|].
  exists (parse2_stock <$> results). split; [reflexivity|].
  split; [apply length_fmap|]. split.
  - intros i raw Hraw. rewrite list_lookup_fmap, Hraw. cbn.
    by rewrite lookup_fmap.
  - apply Forall_fmap, Forall_true. done.
Qed.

End FetchResults.

Section TickerChanges.
Import govaluate model.
Context `{lib : Library} `{eng : !Engine} `{tm : !TickerMethods}.

(** X22. Adding or removing tickers forces the next fetch. When the
    profile reports no error and a positive count, the stocks are
    dropped, so the quotes are ready even with the market closed, as
    long as a ticker is left; the error text is not touched. Otherwise
    the quotes are as they were. *)
Theorem ticker_change_forces_fetch (profile : Profile) (quotes : Quotes)
  (tickers : list string) :
  let changed (r : Profile * Quotes * Z * option error) : Prop :=
    let '(profile', quotes', count, err) := r in
    (err = None → 0 < count →
     Stocks quotes' = None ∧ errors quotes' = errors quotes ∧
     ∀ market, Tickers profile' ≠ [] → isReady market profile' quotes' = true) ∧
    (err ≠ None ∨ count ≤ 0 → quotes' = quotes) in
  changed (AddTickers profile quotes tickers) ∧
  changed (RemoveTickers profile quotes tickers).
Proof.
  assert (∀ market profile', Tickers profile' ≠ [] →
            isReady market profile' (set_Stocks None quotes) = true) as Hready.
  { intros market profile' Hne. unfold isReady. cbn.
    destruct (Tickers profile'); [done|reflexivity]. }
  cbv zeta. split.
  - unfold AddTickers.
    destruct (config.AddTickers profile tickers) as [[profile' added] [err|]].
    + split; [done|]. done.
    + destruct (0 <? added) eqn:Hadded;
        rewrite ?Z.ltb_lt, ?Z.ltb_ge in Hadded.
      * split; [by auto|]. intros [?|?]; [done|lia].
      * split; [intros _ ?; lia | done].
  - unfold RemoveTickers.
    destruct (config.RemoveTickers profile tickers) as [[profile' removed] [err|]].
    + split; [done|]. done.
    + destruct (0 <? removed) eqn:Hremoved;
        rewrite ?Z.ltb_lt, ?Z.ltb_ge in Hremoved.
      * split; [by auto|]. intros [?|?]; [done|lia].
      * split; [intros _ ?; lia | done].
Qed.

End TickerChanges.

Section FetchResultsSamples.
Import govaluate model.
Local Existing Instances sample.floats sample.library sample.engine.

Lemma Fetch_idle_witness :
  Fetch (λ _, GetFailed "no route to host") {| IsClosed := true |}
    (sample.a_profile "" ANil) {| Stocks := Some sample.stocks; errors := "" |}
  = {| Stocks := Some sample.stocks; errors := "" |}.
Proof.
  apply (Fetch_idle (λ _, GetFailed "no route to host") {| IsClosed := true |}
           (sample.a_profile "" ANil)
           {| Stocks := Some sample.stocks; errors := "" |}).
  right. split; [reflexivity | discriminate].
Defined.

Lemma Fetch_failure_reported_witness :
  let quotes := {| Stocks := Some sample.stocks; errors := "" |} in
  let fetched := Fetch (λ _, GetFailed "no route to host") {| IsClosed := false |}
                   (sample.a_profile "" ANil) quotes in
  Stocks fetched = Some sample.stocks ∧
  Ok fetched = (false, newline ++ newline ++ newline ++ newline
                       ++ "Error fetching stock quotes..." ++ newline
                       ++ "no route to host").
Proof.
  apply (Fetch_failure_reported (λ _, GetFailed "no route to host")
           {| IsClosed := false |} (sample.a_profile "" ANil)
           {| Stocks := Some sample.stocks; errors := "" |} "no route to host").
  - reflexivity.
  - by left.
Defined.

Lemma Fetch_success_witness :
  let fetched := Fetch (λ _, Body "{}") {| IsClosed := false |}
                   (sample.a_profile "" ANil)
                   {| Stocks := Some sample.stocks; errors := "timeout" |} in
  Ok fetched = (true, "") ∧ Stocks fetched = Some [].
Proof.
  destruct (Fetch_success (λ _, Body "{}") {| IsClosed := false |}
              (sample.a_profile "" ANil)
              {| Stocks := Some sample.stocks; errors := "timeout" |} "{}" ∅
              ltac:(reflexivity) ltac:(reflexivity) ltac:(reflexivity))
    as (Hok & stocks & Hstocks & Hlen & _).
  split; [exact Hok|].
  destruct stocks; [exact Hstocks | discriminate Hlen].
Defined.

End FetchResultsSamples.

(** ** Tags are tokens, in any order of the pattern *)

Section TagsAreTokens.
Context `{tb : Constants}.

(** X23. The order in which [supportedTags] meets the tags of the map
    does not matter: a markup whose pattern lists the tag names of
    [NewMarkup] in any other order cuts every text into the same
    tokens. *)
Theorem Tokenize_order_irrelevant (color : Color) (markup : Markup) (str : string) :
  alternatives (regex markup) ≡ₚ alternatives (regex (NewMarkup color)) →
  Tokenize markup str = Tokenize (NewMarkup color) str.
Proof.
  intros Hperm. symmetry.
  apply Tokenize_Permutation; [apply NewMarkup_no_gt | done].
Qed.

Lemma Join_app (l1 l2 : list string) :
  Join (l1 ++ l2)%list "" = Join l1 "" ++ Join l2 "".
Proof.
  induction l1 as [|x l1 IH].
  - by rewrite app_nil_l, Join_nil, append_nil_l.
  - change ((x :: l1) ++ l2)%list with (x :: (l1 ++ l2))%list.
    by rewrite !Join_cons, IH, append_assoc.
Qed.

Lemma append_cancel_l (s x y : string) : s ++ x = s ++ y → x = y.
Proof.
  induction s as [|c s IH]; intros Heq.
  - by rewrite !append_nil_l in Heq.
  - rewrite !append_cons in Heq. injection Heq as Heq. by apply IH.
Qed.

(** What one iteration appends to the tokens: the text between the
    previous tag and this one, if there is any, and then the tag. *)
Lemma Tokenize_step_strings (str : string) (st st' : tokenizer) (a b : nat) :
  covers str st →
  (head st ≤ a ∧ a < b ∧ b ≤ String.length str)%nat →
  Tokenize_step str st (a, b) = Some st' →
  ∃ text,
    strings st' = ((strings st ++ text) ++ [substring a (b - a) str])%list ∧
    Join (strings st ++ text)%list "" = substring 0 a str.
Proof.
  intros (Hjoin & Hhead & _) (Ha & Hab & Hb). unfold Tokenize_step; cbn [fst snd].
  assert ((b =? 0)%nat = false) as -> by (apply Nat.eqb_neq; lia).
  rewrite (slice_Some str a b) by lia.
  destruct (negb (head st =? 0)%nat || negb (a =? 0)%nat) eqn:Hcond; cbn.
  - rewrite (slice_Some str (head st) a) by lia. cbn.
    intros [= <-]. exists [substring (head st) (a - head st) str].
    split; [reflexivity|].
    change (strings st ++ [substring (head st) (a - head st) str])%list
      with (append (strings st) (substring (head st) (a - head st) str)).
    rewrite Join_append, Hjoin.
    rewrite <- (Nat.sub_0_r (head st)) at 1. rewrite <- (Nat.sub_0_r a) at 2.
    apply substring_join; lia.
  - apply orb_false_elim in Hcond as [H1 H2].
    apply negb_false_iff, Nat.eqb_eq in H1, H2.
    intros [= <-]. exists []. rewrite app_nil_r.
    split; [reflexivity|]. by rewrite Hjoin, H1, H2.
Qed.

(** The loop only appends, and it appends every match as a token that
    starts where the match starts. *)
Lemma Tokenize_loop_strings (str : string) (ms : list (nat * nat))
  (st st' : tokenizer) :
  covers str st →
  ordered (head st) (String.length str) ms →
  Tokenize_loop str ms st = Some st' →
  (∃ more, strings st' = (strings st ++ more)%list) ∧
  (∀ a b, (a, b) ∈ ms →
     ∃ before after,
       strings st' = (before ++ substring a (b - a) str :: after)%list ∧
       Join before "" = substring 0 a str).
Proof.
  revert st; induction ms as [|[a b] ms IH]; intros st Hst Hms Hloop; cbn in Hloop.
  - simplify_eq. split; [exists []; by rewrite app_nil_r|].
    intros a b Hin. by apply elem_of_nil in Hin.
  - destruct Hms as [Hab Hms].
    destruct (Tokenize_step_covers str st a b Hst Hab) as (st1 & Hstep & Hst1 & Hhead).
    rewrite Hstep in Hloop. cbn in Hloop.
    destruct (Tokenize_step_strings str st st1 a b Hst Hab Hstep) as (text & Hst1s & Hjoin).
    rewrite <- Hhead in Hms.
    destruct (IH st1 Hst1 Hms Hloop) as [[more Hmore] Hnew].
    split.
    + exists (text ++ substring a (b - a) str :: more)%list.
      rewrite Hmore, Hst1s. by rewrite <- !app_assoc.
    + intros a' b' Hin. apply elem_of_cons in Hin as [[= -> ->]|Hin]; [|by apply Hnew].
      exists (strings st ++ text)%list, more. split; [|exact Hjoin].
      rewrite Hmore, Hst1s. by rewrite <- !app_assoc.
Qed.

(** The tokens of a text spell the text. *)
Lemma Tokenize_Join (markup : Markup) (str : string) (tokens : list string) :
  Tokenize markup str = Some tokens → Join tokens "" = str.
Proof.
  unfold Tokenize.
  destruct (Tokenize_loop_covers str (FindAllStringIndex (regex markup) str)
              {| strings := []; head := 0; tail := 0 |})
    as (st & -> & Hjoin & Hhead & Htail).
  { repeat split; cbn; [by rewrite substring_zero | lia | done]. }
  { apply FindAllStringIndex_ordered. }
  cbn.
  destruct (negb (head st =? String.length str)%nat
            && negb (tail st =? String.length str)%nat) eqn:Hcond.
  - apply andb_true_iff in Hcond as [H1 _].
    apply negb_true_iff, Nat.eqb_neq in H1.
    rewrite slice_Some by lia. cbn. intros [= <-].
    rewrite Join_append, Hjoin.
    rewrite <- (Nat.sub_0_r (head st)) at 1.
    rewrite substring_join by lia.
    rewrite Nat.sub_0_r. apply substring_all.
  - intros [= <-].
    assert (head st = String.length str) as Heq.
    { apply andb_false_iff in Hcond as [H|H];
        apply negb_false_iff, Nat.eqb_eq in H; auto. }
    rewrite Hjoin, Heq. apply substring_all.
Qed.

(** X24. No tag is swallowed into the text around it: every place
    [str[a:b]] that the pattern matches in the text is a token of its
    own, at its own place. The tokens split into those before it, which
    spell [str[:a]], the token [str[a:b]] itself, and those after it,
    which spell [str[b:]]. *)
Theorem tags_are_tokens (markup : Markup) (str : string) (tokens : list string)
  (a b : nat) :
  Tokenize markup str = Some tokens →
  (a, b) ∈ FindAllStringIndex (regex markup) str →
  ∃ tok before after,
    slice str a b = Some tok ∧
    tokens = (before ++ tok :: after)%list ∧
    Join before "" = substring 0 a str ∧
    Join after "" = substring b (String.length str - b) str.
Proof.
  intros Htok Hin.
  pose proof (FindAllStringIndex_ordered (regex markup) str) as Hord.
  pose proof (ordered_elem _ _ _ _ _ Hord Hin) as Hab.
  pose proof (Tokenize_Join markup str tokens Htok) as Hall.
  assert (∃ before after,
            tokens = (before ++ substring a (b - a) str :: after)%list ∧
            Join before "" = substring 0 a str) as (before & after & Htokens & Hbefore).
  { unfold Tokenize in Htok.
    destruct (Tokenize_loop str (FindAllStringIndex (regex markup) str)
                {| strings := []; head := 0; tail := 0 |}) as [st|] eqn:Hloop; [|done].
    cbn in Htok.
    apply Tokenize_loop_strings in Hloop as [_ Hnew]; [| |done].
    2: { repeat split; cbn; [by rewrite substring_zero | lia | done]. }
    destruct (Hnew a b Hin) as (before & after & Hst & Hbefore).
    destruct (negb (head st =? String.length str)%nat
              && negb (tail st =? String.length str)%nat).
    - destruct (slice str (head st) (String.length str)) as [rest|]; [|done].
      cbn in Htok. injection Htok as <-.
      exists before, (after ++ [rest])%list. split; [|exact Hbefore].
      unfold append. rewrite Hst. by rewrite <- app_assoc.
    - injection Htok as <-. by exists before, after. }
  exists (substring a (b - a) str), before, after.
  split; [apply slice_Some; lia|]. split; [exact Htokens|]. split; [exact Hbefore|].
  rewrite Htokens, Join_app, Join_cons, Hbefore in Hall.
  assert (substring 0 a str ++ substring a (b - a) str
          ++ substring b (String.length str - b) str = str) as Hstr.
  { rewrite (substring_join str a b (String.length str)) by lia.
    rewrite <- (Nat.sub_0_r a) at 1.
    rewrite (substring_join str 0 a (String.length str)) by lia.
    rewrite Nat.sub_0_r. apply substring_all. }
  rewrite <- Hstr in Hall at 3.
  by apply append_cancel_l, append_cancel_l in Hall.
Qed.

End TagsAreTokens.

Lemma Tokenize_order_irrelevant_witness :
  Tokenize {| Foreground := 0; Background := 0; RightAligned := false;
              tags := @NewMarkup_tags v1 sample.colors;
              regex := {| alternatives :=
                ["highlight"; "b"; "base"; "r"; "right"; "u"; "market"; "/"] |} |}
    "<b>BA</b>"
  = Tokenize (@NewMarkup v1 sample.colors) "<b>BA</b>".
Proof.
  apply (@Tokenize_order_irrelevant v1 sample.colors).
  symmetry.
  apply (Permutation_rev ["/"; "market"; "u"; "right"; "r"; "base"; "b"; "highlight"]).
Defined.

(** In [<b>x<b>y] the second tag, at bytes 4 to 7, is the third token:
    the two tokens before it spell [<b>x] and the one after it [y]. *)
Lemma tags_are_tokens_witness :
  ∃ tok before after,
    slice "<b>x<b>y" 4 7 = Some tok ∧
    ["<b>"; "x"; "<b>"; "y"] = (before ++ tok :: after)%list ∧
    Join before "" = substring 0 4 "<b>x<b>y" ∧
    Join after "" = substring 7 (String.length "<b>x<b>y" - 7) "<b>x<b>y".
Proof.
  apply (tags_are_tokens (@NewMarkup v1 sample.colors) "<b>x<b>y"
           ["<b>"; "x"; "<b>"; "y"] 4 7).
  - vm_compute. reflexivity.
  - vm_compute. apply list_elem_of_further, list_elem_of_here.
Defined.

(** ** The column editor from the main loop *)

Section ColumnEditing.
Import govaluate session column_editor line_editor mop.
Context `{tb : Constants} `{eng : Engine} `{met : !Methods}
        `{ren : !Rendering} `{led : !Interface}.

(** X25. The arrows and Esc touch the selection and the screen only.
    On a key other than Enter, [Handle] of the column editor leaves the
    market, the quotes and the layout as they are, and the profile as it
    is but for the selected column: the sort column, the tickers and the
    filter are never changed by moving about or by leaving. *)
Theorem Handle_touches_selection (editor : ColumnEditor) (event : Event) (w : World) :
  Key event ≠ KeyEnter →
  let w' := (column_editor.Handle editor event w).2 in
  market w' = market w ∧ quotes w' = quotes w ∧
  session.layout (screen w') = session.layout (screen w) ∧
  ∀ x, set_SelectedColumn x (profile w') = set_SelectedColumn x (profile w).
Proof.
  intros Henter w'. subst w'. unfold column_editor.Handle.
  apply Z.eqb_neq in Henter. rewrite Henter.
  destruct (Key event =? KeyEsc); [done|].
  destruct (Key event =? KeyArrowLeft).
  { unfold selectLeftColumn. by destruct (_ <? 0). }
  destruct (Key event =? KeyArrowRight); [|done].
  unfold selectRightColumn. by destruct (_ <? _).
Qed.

(** X26. Opening the column editor and leaving it at once changes
    nothing but the screen. From the state without editor and help, the
    key o (or O) followed by Esc leaves the loop running in the state it
    was in, with no column selected and the rest of the profile, the
    market and the quotes as before; the header has been drawn twice,
    first with the sort column selected, then with none. *)
Theorem open_and_escape (st : Loop) (w : World) (open esc : Event) :
  normal st = true →
  Type_ open = EventKey → Type_ esc = EventKey →
  Key open ≠ KeyEsc → Ch open = rune "o" ∨ Ch open = rune "O" →
  Key esc = KeyEsc →
  let p := profile w in
  let header x := Header (session.layout (screen w)) (set_SelectedColumn x p) in
  run st w [keyboardQueue open; keyboardQueue esc]
  = (Continue, st,
     {| screen :=
          {| session.layout := session.layout (screen w);
             calls := (calls (screen w)
                       ++ [DrawLine 0 4 (header (SortColumn p)); Flush;
                           DrawLine 0 4 (header (-1)); Flush])%list |};
        profile := set_SelectedColumn (-1) p;
        market := market w;
        quotes := quotes w |}).
Proof.
  intros Hnormal Hopen Hesc Hkey Hch Hqesc p header. subst p header.
  unfold normal in Hnormal.
  destruct st as [line column help pause]. cbn in Hnormal.
  destruct line, column, help; try done.
  cbn [run step]. rewrite Hopen. unfold key. cbn [lineEditor columnEditor showingHelp].
  apply Z.eqb_neq in Hkey.
  assert (command {| lineEditor := None; columnEditor := None;
                     showingHelp := false; paused := pause |} w open
          = (Continue,
             {| lineEditor := None;
                columnEditor := Some {| layout := session.layout (screen w) |};
                showingHelp := false; paused := pause |},
             selectCurrentColumn {| layout := session.layout (screen w) |} w))
    as ->.
  { unfold command. rewrite Hkey. by destruct Hch as [-> | ->]. }
  rewrite Hesc. cbn [lineEditor columnEditor showingHelp].
  unfold column_editor.Handle. rewrite Hqesc, Z.eqb_refl.
  unfold done, selectCurrentColumn, redrawHeader, on_screen, set_screen,
    set_profile, call, set_columnEditor, append.
  cbn. by rewrite <- !app_assoc.
Qed.

End ColumnEditing.

Section ColumnEditingSamples.
Import govaluate model session column_editor line_editor mop.
Local Existing Instances v1 sample.floats sample.library sample.engine
  sample.methods sample.rendering sample.editor sample.ticker_methods.

Lemma Handle_touches_selection_witness :
  let editor := {| layout := {| TotalColumns := 15 |} |} in
  let w := sample.a_world 15 (sample.a_profile "" ANil) in
  let w' := (column_editor.Handle editor sample.key_right w).2 in
  market w' = market w ∧ quotes w' = quotes w ∧
  session.layout (screen w') = session.layout (screen w) ∧
  ∀ x, set_SelectedColumn x (profile w') = set_SelectedColumn x (profile w).
Proof.
  apply (Handle_touches_selection {| layout := {| TotalColumns := 15 |} |}
           sample.key_right (sample.a_world 15 (sample.a_profile "" ANil))).
  discriminate.
Defined.

Lemma open_and_escape_witness :
  let w := sample.a_world 15 (sample.a_profile "" ANil) in
  let open := {| Type_ := EventKey; Key := 0; Ch := rune "o" |} in
  (run (sample.idle false) w [keyboardQueue open; keyboardQueue sample.key_Esc]).1
  = (Continue, sample.idle false).
Proof.
  intros w open.
  rewrite (open_and_escape (sample.idle false) w open sample.key_Esc);
    [reflexivity | reflexivity | reflexivity | reflexivity | discriminate
    | by left | reflexivity].
Defined.

Lemma ticker_change_forces_fetch_witness :
  let r := AddTickers (sample.a_profile "" ANil)
             {| Stocks := Some sample.stocks; errors := "" |} ["AAPL"] in
  Stocks r.1.1.2 = None ∧
  isReady {| IsClosed := true |} r.1.1.1 r.1.1.2 = true.
Proof.
  intros r.
  destruct (ticker_change_forces_fetch (sample.a_profile "" ANil)
              {| Stocks := Some sample.stocks; errors := "" |} ["AAPL"])
    as [Hadd _].
  fold r in Hadd.
  assert (r = ((config.AddTickers (sample.a_profile "" ANil) ["AAPL"]).1.1,
               set_Stocks None {| Stocks := Some sample.stocks; errors := "" |},
               1, None)) as Hr by reflexivity.
  rewrite Hr in Hadd |- *. cbv beta iota zeta in Hadd.
  destruct Hadd as [Hforce _].
  destruct (Hforce eq_refl ltac:(reflexivity)) as (Hstocks & _ & Hready).
  split; [exact Hstocks|]. apply Hready. discriminate.
Defined.

End ColumnEditingSamples.
